(** * NekoparaScnExtractor: the extraction engine of [readjson.py]

    A shallow embedding of [readjson.py] and the properties of its
    specification.  Python values are modelled as follows.

    - A Python [str] is the list of its Unicode code points ([str], a
      list of [N]); literals are written with [u "..."] for ASCII text
      and as explicit code points otherwise.
    - A value produced by [json.load] is a [json] tree; [None] is
      [JNull].
    - Python lists that are updated by index are stdpp lists with
      lookup and insert.
    - The file system and clock are an explicit [world] threaded through
      a small state-and-exception monad. *)

From Stdlib Require Import ZArith NArith Ascii String.
From Stdlib Require Import DecimalString.
From stdpp Require Import base list gmap.
From Equations Require Import Equations.

Local Open Scope list_scope.

(** ** Strings *)

Abbreviation str := (list N).

(** [u "abc"] is the Python string whose characters are the ASCII
    characters of the literal. *)
Definition u (s : string) : str :=
  List.map N_of_ascii (list_ascii_of_string s).

(** [old.startswith]-style test used by [str.replace]: [old] occurs in
    [s] at offset 0. *)
Definition starts_with (old s : str) : bool :=
  bool_decide (old `prefix_of` s).

(** [s.replace(old, new)] for a non-empty [old]: scan from the left, at
    each occurrence of [old] emit [new] and continue after the
    occurrence (occurrences found this way never overlap). *)
Equations? replace_scan (old new s : str) : str by wf (length s) lt :=
  replace_scan old new [] := [];
  replace_scan old new (c :: s) with starts_with old (c :: s) := {
    | true := new ++ replace_scan old new (drop (length old - 1) s);
    | false := c :: replace_scan old new s }.
Proof.
  all: simpl; try lia.
  rewrite length_drop. lia.
Qed.

(** [s.replace(old, new)].  With an empty [old] Python puts [new]
    before every character and at the end. *)
Definition str_replace (old new s : str) : str :=
  match old with
  | [] => new ++ flat_map (fun c => c :: new) s
  | _ :: _ => replace_scan old new s
  end.

(** [TEXT_MARKERS_TO_REMOVE = ('%fSourceHanSansCN-M;', '%f;')] *)
Definition TEXT_MARKERS_TO_REMOVE : list str :=
  [u "%fSourceHanSansCN-M;"; u "%f;"].

(** [clean_text_markers]: [None] stays [None]; otherwise the markers are
    replaced by the empty string one after the other, in tuple order. *)
Definition clean_text_markers (text : option str) : option str :=
  match text with
  | None => None
  | Some text =>
      Some (foldl (fun text marker => str_replace marker [] text)
                  text TEXT_MARKERS_TO_REMOVE)
  end.

(** ** JSON values

    What [json.load] returns: [None], [bool], [int], [float], [str],
    [list] and [dict].  A [dict] is kept as its items in insertion
    order; its keys are pairwise distinct.  The program never computes
    with a [float]: it only hands it back to [json.dump], which writes
    [float.__repr__] (or [NaN], [Infinity], [-Infinity]); a float is
    therefore represented by that text. *)

#[local] Set Warnings "-register-all".

Inductive json : Type :=
| JNull
| JBool (b : bool)
| JInt (n : Z)
| JFloat (repr : str)
| JStr (s : str)
| JList (l : list json)
| JDict (d : list (str * json)).

(** [v[i]] for a list [v] and [0 <= i]; [None] where Python raises. *)
Definition py_index (v : json) (i : nat) : option json :=
  match v with
  | JList l => l !! i
  | _ => None
  end.

(** [isinstance(v, str)] *)
Definition is_str (v : json) : bool :=
  match v with JStr _ => true | _ => false end.

(** [isinstance(v, list)] *)
Definition is_list (v : json) : bool :=
  match v with JList _ => true | _ => false end.

(** Truth value of a string or of a list: non-empty. *)
Definition non_empty {A} (l : list A) : bool :=
  match l with [] => false | _ :: _ => true end.

(** [d.get(key)], with [None] for a missing key. *)
Fixpoint dict_get (d : list (str * json)) (key : str) : option json :=
  match d with
  | [] => None
  | (k, v) :: d => if bool_decide (k = key) then Some v else dict_get d key
  end.

(** ** Entry Resolver *)

(** [is_language_item]:
    [isinstance(item, list) and len(item) >= 2 and isinstance(item[1], str)] *)
Definition is_language_item (item : json) : bool :=
  match item with
  | JList l =>
      (2 <=? length l) &&
      match l !! 1 with
      | Some v => is_str v
      | None => false
      end
  | _ => false
  end.

(** The [for field in text_entry] loop of [find_language_list]. *)
Fixpoint find_language_list_loop (fields : list json) : option (list json) :=
  match fields with
  | [] => None
  | field :: fields =>
      match field with
      | JList l =>
          if non_empty l && forallb is_language_item l
          then Some l
          else find_language_list_loop fields
      | _ => find_language_list_loop fields
      end
  end.

Definition find_language_list (text_entry : json) : option (list json) :=
  match text_entry with
  | JList fields => find_language_list_loop fields
  | _ => None
  end.

(** ** Language Selector *)

(** [PREFERRED_ZH_INDEXES = (3, 2)] *)
Definition PREFERRED_ZH_INDEXES : list nat := [3; 2].

(** One character of the class
    [[\u3400-\u4dbf\u4e00-\u9fff\uf900-\ufaff]]. *)
Definition zh_char (c : N) : bool :=
  ((0x3400 <=? c) && (c <=? 0x4dbf)
   || (0x4e00 <=? c) && (c <=? 0x9fff)
   || (0xf900 <=? c) && (c <=? 0xfaff))%N.

(** [ZH_RE.search(s)] as a truth value. *)
Definition ZH_RE_search (s : str) : bool := existsb zh_char s.

(** [is_language_item(item) and item[1]] *)
Definition has_text (item : json) : bool :=
  is_language_item item &&
  match py_index item 1 with
  | Some (JStr s) => non_empty s
  | _ => false
  end.

(** [is_language_item(item) and item[1] and ZH_RE.search(item[1])] *)
Definition has_zh_text (item : json) : bool :=
  has_text item &&
  match py_index item 1 with
  | Some (JStr s) => ZH_RE_search s
  | _ => false
  end.

(** The first loop of [pick_language_entry], over the preferred
    indexes. *)
Fixpoint pick_preferred (language_list : list json) (indexes : list nat)
  : option json :=
  match indexes with
  | [] => None
  | index :: indexes =>
      match language_list !! index with
      | Some item =>
          if has_text item then Some item
          else pick_preferred language_list indexes
      | None => pick_preferred language_list indexes
      end
  end.

Definition pick_language_entry (language_list : list json) : option json :=
  match pick_preferred language_list PREFERRED_ZH_INDEXES with
  | Some item => Some item
  | None =>
      match List.find has_zh_text language_list with
      | Some item => Some item
      | None => List.find has_text (reverse language_list)
      end
  end.

(** ** Fallback Resolver *)

(** The loop of [pick_fallback_character] over [order]. *)
Fixpoint pick_fallback_loop (text_entry : list json) (order : list nat)
  : option str :=
  match order with
  | [] => None
  | index :: order =>
      match text_entry !! index with
      | Some (JStr value) =>
          if non_empty value then Some value
          else pick_fallback_loop text_entry order
      | _ => pick_fallback_loop text_entry order
      end
  end.

Definition pick_fallback_character (text_entry : list json)
    (prefer_index1 : bool) : option str :=
  let order := if prefer_index1 then [1; 0] else [0; 1] in
  pick_fallback_loop text_entry order.

(** The tail of [extract_character_and_text], after the comment
    "Compatibility fallback for older/plain formats". *)
Definition legacy_fallback (text_entry : list json) : option str * option str :=
  match text_entry !! 2 with
  | Some (JStr text) =>
      (pick_fallback_character text_entry true, clean_text_markers (Some text))
  | _ =>
      match text_entry !! 1 with
      | Some (JStr text) =>
          (pick_fallback_character text_entry true, clean_text_markers (Some text))
      | _ => (pick_fallback_character text_entry true, None)
      end
  end.

(** [selected[1]] handed to [clean_text_markers]; [selected] comes from
    [pick_language_entry], so its second element is a string (lemma
    [pick_language_entry_has_text]). *)
Definition selected_text (selected : json) : option str :=
  match py_index selected 1 with
  | Some (JStr s) => Some s
  | _ => None
  end.

(** The branch of [extract_character_and_text] taken when a language
    list was found and an item selected from it. *)
Definition selected_pair (text_entry : list json) (selected : json)
  : option str * option str :=
  let character :=
    match py_index selected 0 with
    | Some (JStr c) => Some c
    | _ => None
    end in
  let character :=
    match character with
    | Some (_ :: _) => character
    | _ => pick_fallback_character text_entry false
    end in
  (character, clean_text_markers (selected_text selected)).

Definition extract_character_and_text (text_entry : json)
  : option str * option str :=
  match text_entry with
  | JList fields =>
      match find_language_list text_entry with
      | Some language_list =>
          if non_empty language_list then
            match pick_language_entry language_list with
            | Some selected => selected_pair fields selected
            | None => legacy_fallback fields
            end
          else legacy_fallback fields
      | None => legacy_fallback fields
      end
  | _ => (None, None)
  end.

(** ** Output Formatter *)

Definition nl : str := [10%N].

(** [sep.join(items)] *)
Fixpoint str_join (sep : str) (items : list str) : str :=
  match items with
  | [] => []
  | [item] => item
  | item :: items => item ++ sep ++ str_join sep items
  end.

Definition hex_digit (n : N) : N :=
  (if n <? 10 then 48 + n else 87 + n)%N.

(** [ESCAPE_DCT] of the [json] encoder: the replacement of one
    character; backslash, double quote and the control characters
    below 0x20 are escaped, every other character stands for itself. *)
Definition escape_char (c : N) : str :=
  (if c =? 92 then u "\\"
   else if c =? 34 then [92; 34]
   else if c =? 8 then u "\b"
   else if c =? 12 then u "\f"
   else if c =? 10 then u "\n"
   else if c =? 13 then u "\r"
   else if c =? 9 then u "\t"
   else if c <? 32 then u "\u00" ++ [hex_digit (c / 16); hex_digit (c mod 16)]
   else [c])%N.

(** [encode_basestring(s)], the string encoder for [ensure_ascii = False]. *)
Definition encode_basestring (s : str) : str :=
  [34%N] ++ flat_map escape_char s ++ [34%N].

(** [int.__repr__(n)] *)
Definition int_repr (n : Z) : str :=
  u (NilZero.string_of_int (Z.to_int n)).

(** [json.dumps(value, ensure_ascii = False)] on the values of a flat
    text sequence, which are [None] or strings. *)
Definition json_dumps (value : option str) : str :=
  match value with
  | None => u "null"
  | Some s => encode_basestring s
  end.

Definition format_scene (scene_data : option (list (option str))) : str :=
  match scene_data with
  | None => nl ++ u "  null"
  | Some scene_data =>
      let formatted_items :=
        imap (fun index value =>
                let dumped := json_dumps value in
                if Nat.even index then dumped else u "  " ++ dumped)
             scene_data in
      nl ++ u "  [" ++ nl ++ u "    "
         ++ str_join (u "," ++ nl ++ u "    ") formatted_items
         ++ nl ++ u "  ]"
  end.

Definition build_text_output (text_payload : list (option (list (option str))))
  : str :=
  u "[" ++ str_join (u ",") (List.map format_scene text_payload) ++ nl ++ u "]".

(** A newline followed by [indent * level], for [indent = 2] *)
Definition newline_indent (level : nat) : str :=
  nl ++ concat (replicate level (u "  ")).

(** The [json] encoder as [json.dump(..., ensure_ascii = False, indent = 2)]
    runs it ([_iterencode] with [item_separator = ','] and
    [key_separator = ': ']); [level] is the indent level of the
    enclosing container. *)
Fixpoint json_encode (level : nat) (o : json) : str :=
  match o with
  | JNull => u "null"
  | JBool true => u "true"
  | JBool false => u "false"
  | JInt n => int_repr n
  | JFloat repr => repr
  | JStr s => encode_basestring s
  | JList [] => u "[]"
  | JList l =>
      u "[" ++ newline_indent (S level)
        ++ str_join (u "," ++ newline_indent (S level))
                    (List.map (json_encode (S level)) l)
        ++ newline_indent level ++ u "]"
  | JDict [] => u "{}"
  | JDict d =>
      u "{" ++ newline_indent (S level)
        ++ str_join (u "," ++ newline_indent (S level))
                    (List.map (fun kv => encode_basestring (fst kv) ++ u ": "
                                         ++ json_encode (S level) (snd kv)) d)
        ++ newline_indent level ++ u "}"
  end.

(** The text [json.dump(user_select, f, ensure_ascii = False, indent = 2)]
    writes. *)
Definition json_dump (user_select : list json) : str :=
  json_encode 0 (JList user_select).

(** ** Scene Walker *)

(** [ensure_scene_slot]: [while len(container) <= index: container.append(None)];
    [none] is the [None] of the container's element type. *)
Equations? ensure_scene_slot {A} (none : A) (container : list A) (index : nat)
  : list A by wf (S index - length container) lt :=
  ensure_scene_slot none container index with le_lt_dec (length container) index := {
    | left _ := ensure_scene_slot none (container ++ [none]) index;
    | right _ := container }.
Proof.
  rewrite length_app. simpl. lia.
Qed.

(** [user_text[scene_index].append(value)] *)
Definition slot_append (user_text : list (option (list (option str))))
    (scene_index : nat) (value : option str) :=
  alter (fun slot => (fun flat => flat ++ [value]) <$> slot) scene_index user_text.

(** The body of [if isinstance(scene_texts, list)] in [extract_file]. *)
Definition walk_texts (user_text : list (option (list (option str))))
    (scene_index : nat) (scene_texts : list json) :=
  let user_text := ensure_scene_slot None user_text scene_index in
  let user_text := <[scene_index := Some []]> user_text in
  foldl (fun user_text text_entry =>
           let '(character, text) := extract_character_and_text text_entry in
           let user_text := slot_append user_text scene_index character in
           slot_append user_text scene_index text)
        user_text scene_texts.

(** One iteration of [for scene_index, scene in enumerate(scenes)]. *)
Definition walk_scene (scene_index : nat) (scene : json)
    (state : list (option (list (option str))) * list json) :=
  let '(user_text, user_select) := state in
  match scene with
  | JDict d =>
      let user_text :=
        match dict_get d (u "texts") with
        | Some (JList scene_texts) => walk_texts user_text scene_index scene_texts
        | _ => user_text
        end in
      let user_select :=
        match dict_get d (u "selects") with
        | Some selects =>
            <[scene_index := selects]> (ensure_scene_slot JNull user_select scene_index)
        | None => user_select
        end in
      (user_text, user_select)
  | _ => state
  end.

Fixpoint walk_scenes (scene_index : nat) (scenes : list json)
    (state : list (option (list (option str))) * list json) :=
  match scenes with
  | [] => state
  | scene :: scenes =>
      walk_scenes (S scene_index) scenes (walk_scene scene_index scene state)
  end.

(** [origin_json.get('scenes') if isinstance(origin_json, dict) else None] *)
Definition get_scenes (origin_json : json) : option json :=
  match origin_json with
  | JDict d => dict_get d (u "scenes")
  | _ => None
  end.

(** ** The world: files, clock and standard error

    The three directories [json/], [extract/text/] and
    [extract/select/] are three stores keyed by file name (the names of
    the manifest are plain file names, so the directories do not
    alias).  A source file is its modification time and the value
    [json.load] reads from it, [None] when it is not valid JSON.
    [st_mtime] is a finite binary64, that is an integer multiple of
    2^-1074 s; it is represented by that integer, which has the same
    order.  [now] and [asctime] are the clock at the moment the run
    stamps [last_extract_time.txt]: the modification time the file
    receives and the text [time.asctime()] returns. *)

Record source_file : Type := SourceFile {
  st_mtime : Z;
  parsed : option json }.

Record world : Type := World {
  json_dir : gmap str source_file;
  text_dir : gmap str str;
  select_dir : gmap str str;
  json_list : option (list str);
  last_extract_time : option (Z * str);
  now : Z;
  asctime : str;
  stderr : list str }.

(** Computations on the world that may raise: [None] is an uncaught
    exception, which ends the run. *)
Definition io (A : Type) : Type := world -> option (A * world).

#[global] Instance io_ret : MRet io := fun A a w => Some (a, w).

#[global] Instance io_bind : MBind io := fun A B k c w =>
  match c w with
  | Some (a, w) => k a w
  | None => None
  end.

(** [log]: one line on standard error. *)
Definition log (message : str) : io unit := fun w =>
  Some (tt, World (json_dir w) (text_dir w) (select_dir w) (json_list w)
                  (last_extract_time w) (now w) (asctime w)
                  (stderr w ++ [message])).

(** A string can be written with [encoding = 'utf-8'] unless it holds a
    surrogate code point. *)
Definition utf8_encodable (s : str) : bool :=
  forallb (fun c => negb ((0xD800 <=? c) && (c <=? 0xDFFF))%N) s.

Definition write_text_file (filename content : str) : io unit := fun w =>
  if utf8_encodable content then
    Some (tt, World (json_dir w) (<[filename := content]> (text_dir w))
                    (select_dir w) (json_list w) (last_extract_time w)
                    (now w) (asctime w) (stderr w))
  else None.

Definition write_select_file (filename content : str) : io unit := fun w =>
  if utf8_encodable content then
    Some (tt, World (json_dir w) (text_dir w)
                    (<[filename := content]> (select_dir w)) (json_list w)
                    (last_extract_time w) (now w) (asctime w) (stderr w))
  else None.

(** [write_extract_files]; creating the two directories changes nothing
    in this model of the file system. *)
Definition write_extract_files (filename : str)
    (user_text : list (option (list (option str)))) (user_select : list json)
  : io unit :=
  write_text_file filename (build_text_output user_text);;
  write_select_file filename (json_dump user_select).

(** [read_json_file_list]: [json_list] holds [f.read().splitlines(False)],
    [None] when the manifest cannot be opened. *)
Definition read_json_file_list : io (list str) := fun w =>
  match json_list w with
  | Some lines => Some (List.filter non_empty lines, w)
  | None => None
  end.

(** ** Change Detector *)

(** The loop of [collect_modified_files]. *)
Fixpoint collect_loop (w : world) (has_last_extract_time : bool)
    (last_extract_mtime : option Z) (json_files targets : list str) : list str :=
  match json_files with
  | [] => targets
  | name :: json_files =>
      match json_dir w !! name with
      | None =>
          collect_loop w has_last_extract_time last_extract_mtime json_files targets
      | Some source =>
          if negb has_last_extract_time
             || match last_extract_mtime with
                | Some mtime => (mtime <? st_mtime source)%Z
                | None => false
                end
          then collect_loop w has_last_extract_time last_extract_mtime json_files
                            (targets ++ [name])
          else collect_loop w has_last_extract_time last_extract_mtime json_files
                            targets
      end
  end.

Definition collect_modified_files (json_files : list str) : io (list str) :=
  fun w =>
    let has_last_extract_time :=
      match last_extract_time w with Some _ => true | None => false end in
    let last_extract_mtime := fst <$> last_extract_time w in
    Some (collect_loop w has_last_extract_time last_extract_mtime json_files [], w).

(** ** Extraction Driver *)

Definition extract_file (filename : str) : io bool := fun w =>
  match json_dir w !! filename with
  | None => None
  | Some source =>
      match parsed source with
      | None => None
      | Some origin_json =>
          match get_scenes origin_json with
          | Some (JList scenes) =>
              let '(user_text, user_select) := walk_scenes 0 scenes ([], []) in
              (write_extract_files filename user_text user_select;;
               log (filename ++ u " extract DONE!");;
               mret true) w
          | _ =>
              (write_extract_files filename [] [];;
               log (filename ++ u " skipped (no scenes).");;
               mret true) w
          end
      end
  end.

Definition update_extract_time : io unit := fun w =>
  log (u "Extract time updated.")
      (World (json_dir w) (text_dir w) (select_dir w) (json_list w)
             (Some (now w, asctime w)) (now w) (asctime w) (stderr w)).

(** The [for filename in modified_files] loop of [main]. *)
Fixpoint extract_loop (modified_files : list str) (new_extract : bool) : io bool :=
  match modified_files with
  | [] => mret new_extract
  | filename :: modified_files =>
      extracted ← extract_file filename;
      extract_loop modified_files (if (extracted : bool) then true else new_extract)
  end.

(** [main]; the change of working directory has no effect on the three
    stores. *)
Definition main : io Z :=
  json_file_list ← read_json_file_list;
  modified_files ← collect_modified_files json_file_list;
  new_extract ← extract_loop modified_files false;
  if negb (new_extract : bool) then
    log (u "No file updated, have a good day!");;
    mret 0%Z
  else
    update_extract_time;;
    mret 0%Z.

(** * Specification vocabulary

    The predicates in which the properties below are stated, and the
    concrete entries and worlds they are evaluated on. *)

(** ** Occurrences of a marker *)

(** [old] occurs in [s]. *)
Definition occurs_in (old s : str) : Prop :=
  ∃ a b, s = a ++ old ++ b.

(** No proper suffix of [old] is a prefix of [old]: two occurrences of
    [old] cannot overlap. *)
Definition unbordered (old : str) : Prop :=
  ∀ k, 0 < k < length old → ¬ drop k old `prefix_of` old.

(** The same as a test that computes. *)
Definition unbordered_b (old : str) : bool :=
  forallb (fun k => negb (starts_with (drop k old) old)) (seq 1 (length old - 1)).

(** ** Language items and language lists *)

(** [item] is a Language Item whose text is [text]: a list of length at
    least 2 whose second element is the string [text]. *)
Definition LanguageItem (item : json) (text : str) : Prop :=
  ∃ first rest, item = JList (first :: JStr text :: rest).

(** A Language Item with non-empty text. *)
Definition NonEmptyText (item : json) : Prop :=
  ∃ text, LanguageItem item text ∧ text ≠ [].

(** A code point of the ranges 0x3400-0x4DBF, 0x4E00-0x9FFF or
    0xF900-0xFAFF. *)
Definition CJK (c : N) : Prop :=
  (0x3400 ≤ c ≤ 0x4DBF ∨ 0x4E00 ≤ c ≤ 0x9FFF ∨ 0xF900 ≤ c ≤ 0xFAFF)%N.

(** A Language Item with non-empty text that holds a CJK code point. *)
Definition CJKText (item : json) : Prop :=
  ∃ text, LanguageItem item text ∧ text ≠ [] ∧ ∃ c, c ∈ text ∧ CJK c.

(** A non-empty list in which every element is a Language Item. *)
Definition LanguageList (field : list json) : Prop :=
  field ≠ [] ∧ Forall (λ item, ∃ text, LanguageItem item text) field.

(** No item with non-empty text stands at index [i]. *)
Definition no_text_at (language_list : list json) (i : nat) : Prop :=
  ∀ item, language_list !! i = Some item → ¬ NonEmptyText item.

(** The language list of the specification's example:
    [[["A",""],["B",""],["C","你好"],["D",""]]]. *)
Definition example_language_list : list json :=
  [JList [JStr (u "A"); JStr []];
   JList [JStr (u "B"); JStr []];
   JList [JStr (u "C"); JStr [0x4F60; 0x597D]%N];
   JList [JStr (u "D"); JStr []]].

(** A field that qualifies as a language list. *)
Definition LanguageListField (field : json) : Prop :=
  ∃ l, field = JList l ∧ LanguageList l.

(** An entry whose first field is a language list with empty text only,
    followed by a name and a line of text. *)
Definition entry_with_empty_language_list : json :=
  JList [JList [JList [JStr (u "A"); JStr []]]; JStr (u "Bob"); JStr (u "Hello")].

(** ** Scenes and payloads *)

(** The [texts] of a scene that has a [texts] list. *)
Definition scene_texts (scene : json) : option (list json) :=
  match scene with
  | JDict d =>
      match dict_get d (u "texts") with
      | Some (JList texts) => Some texts
      | _ => None
      end
  | _ => None
  end.

(** The [selects] of a scene that has a [selects] key. *)
Definition scene_selects (scene : json) : option json :=
  match scene with
  | JDict d => dict_get d (u "selects")
  | _ => None
  end.

(** The flat sequence of a scene: character and text of every dialogue
    entry, in order. *)
Definition flat_lines (texts : list json) : list (option str) :=
  flat_map (λ text_entry,
              let '(character, text) := extract_character_and_text text_entry in
              [character; text])
           texts.

(** [n] is one more than the highest index that satisfies [P], and 0
    when no index does. *)
Definition one_more_than_highest (P : nat → Prop) (n : nat) : Prop :=
  (∀ i, P i → i < n) ∧ (n = 0 ∨ P (n - 1)).

(** The Text payload at the time [extract_file] writes it. *)
Definition text_payload (scenes : list json) : list (option (list (option str))) :=
  (walk_scenes 0 scenes ([], [])).1.

(** The Select payload at that time. *)
Definition select_payload (scenes : list json) : list json :=
  (walk_scenes 0 scenes ([], [])).2.

(** The slot a scene stores in the Text payload, if it stores one. *)
Definition text_slot (scene : json) : option (option (list (option str))) :=
  (λ texts, Some (flat_lines texts)) <$> scene_texts scene.

(** ** Worlds and runs *)

(** The source file [name] exists and, when a persisted timestamp
    exists, is newer than it. *)
Definition is_modified (w : world) (name : str) : bool :=
  match json_dir w !! name with
  | None => false
  | Some source =>
      match last_extract_time w with
      | None => true
      | Some (mtime, _) => (mtime <? st_mtime source)%Z
      end
  end.

(** The source file [name] exists. *)
Definition source_exists (w : world) (name : str) : bool :=
  match json_dir w !! name with
  | None => false
  | Some _ => true
  end.

(** The world after [extract_file] has written both artifacts of
    [filename] and logged [message]. *)
Definition written (w : world) (filename text select message : str) : world :=
  World (json_dir w) (<[filename := text]> (text_dir w))
        (<[filename := select]> (select_dir w)) (json_list w)
        (last_extract_time w) (now w) (asctime w) (stderr w ++ [message]).

(** A world with one source file, [a.json], that holds the document
    [{}]. *)
Definition world_without_scenes : world :=
  World {[ u "a.json" := SourceFile 10 (Some (JDict [])) ]} ∅ ∅
        (Some [u "a.json"]) None 20 (u "Thu Jan  1 00:00:20 1970") [].

(** The world in which the next run starts when nothing but the clock
    has changed: the run stamps at time [t], with [a] as the text of
    [time.asctime()]. *)
Definition set_clock (t : Z) (a : str) (w : world) : world :=
  World (json_dir w) (text_dir w) (select_dir w) (json_list w)
        (last_extract_time w) t a (stderr w).

(** After a run from [w0] that completes, a second run, whatever the
    clock shows then, writes no file and logs that no file was
    updated. *)
Definition second_run_is_noop (w0 : world) : Prop :=
  ∀ code w1, main w0 = Some (code, w1) →
  ∀ t a, main (set_clock t a w1)
         = Some (0%Z, World (json_dir w1) (text_dir w1) (select_dir w1)
                            (json_list w1) (last_extract_time w1) t a
                            (stderr w1 ++ [u "No file updated, have a good day!"])).

(** What a run reads of the world stays as it is while files are
    extracted. *)
Definition same_inputs (w w' : world) : Prop :=
  json_dir w' = json_dir w ∧ json_list w' = json_list w
  ∧ last_extract_time w' = last_extract_time w
  ∧ now w' = now w ∧ asctime w' = asctime w.

(** A world whose only source file carries a modification time (100)
    later than the time at which the run stamps the persisted timestamp
    (50), as after copying a file from a machine whose clock is
    ahead. *)
Definition future_world : world :=
  World {[ u "a.json" := SourceFile 100 (Some (JDict [(u "scenes", JList [])])) ]}
        ∅ ∅ (Some [u "a.json"]) None 50 (u "Thu Jan  1 00:00:50 1970") [].

(** A world whose only source file, with one scene of one legacy entry,
    was last modified (at 10) before the run stamps the persisted
    timestamp (at 20). *)
Definition settled_world : world :=
  World {[ u "a.json" :=
             SourceFile 10
               (Some (JDict [(u "scenes",
                              JList [JDict [(u "texts",
                                             JList [JList [JNull; JStr (u "Amy"); JStr (u "Hi")]])]])])) ]}
        ∅ ∅ (Some [u "a.json"]) None 20 (u "Thu Jan  1 00:00:20 1970") [].

Section SlotDefinitions.
Context {A : Type} (none : A).

(** [ensure_scene_slot(container, index); container[index] = v] *)
Definition place (container : list A) (index : nat) (v : A) : list A :=
  <[index := v]> (ensure_scene_slot none container index).

(** The loop over the scenes as seen from one payload: [values] holds,
    per scene, the slot value the scene stores, if it stores one. *)
Fixpoint fill (index : nat) (values : list (option A)) (container : list A) : list A :=
  match values with
  | [] => container
  | v :: values =>
      fill (S index) values
           (match v with
            | Some v => place container index v
            | None => container
            end)
  end.

(** [container] is aligned with [values]: it is not longer, each of its
    slots holds the value stored at that index or [none], nothing is
    stored at or beyond its length, and unless it is empty its last
    slot was stored. *)
Definition aligned (values : list (option A)) (container : list A) : Prop :=
  length container ≤ length values
  ∧ (∀ j, j < length container →
          container !! j = Some (default none (values !! j ≫= id)))
  ∧ (∀ j, length container ≤ j → values !! j ≫= id = None)
  ∧ (container = [] ∨ is_Some (values !! (length container - 1) ≫= id)).

End SlotDefinitions.

(** ** Encodable values and line counts *)

(** An optional string that can be written as UTF-8. *)
Definition opt_encodable (value : option str) : bool :=
  match value with
  | Some s => utf8_encodable s
  | None => true
  end.

(** Every string of a JSON value, the dictionary keys and the text of
    the floats included, can be written as UTF-8. *)
Fixpoint json_encodable (v : json) : bool :=
  match v with
  | JNull | JBool _ | JInt _ => true
  | JFloat repr => utf8_encodable repr
  | JStr s => utf8_encodable s
  | JList l => forallb json_encodable l
  | JDict d => forallb (λ kv, utf8_encodable kv.1 && json_encodable kv.2) d
  end.

(** Every string of a slot of the Text payload can be written. *)
Definition slot_encodable (slot : option (list (option str))) : Prop :=
  ∀ scene_data, slot = Some scene_data →
  ∀ value, value ∈ scene_data → opt_encodable value = true.

(** The number of newline characters of a text. *)
Definition newlines (s : str) : nat :=
  length (List.filter (N.eqb 10) s).

(** The number of newline characters [format_scene] writes for a
    slot. *)
Definition scene_newlines (slot : option (list (option str))) : nat :=
  match slot with
  | None => 1
  | Some scene_data => 2 + max 1 (length scene_data)
  end.

(** The scenes of a document, when it has a [scenes] list. *)
Definition scenes_of (origin_json : json) : option (list json) :=
  match get_scenes origin_json with
  | Some (JList scenes) => Some scenes
  | _ => None
  end.

(** The Text artifact of a document. *)
Definition text_artifact (origin_json : json) : str :=
  build_text_output (default [] (text_payload <$> scenes_of origin_json)).

(** The Select artifact of a document. *)
Definition select_artifact (origin_json : json) : str :=
  json_dump (default [] (select_payload <$> scenes_of origin_json)).

(** The line [extract_file] logs for [filename] holding a document. *)
Definition file_message (filename : str) (origin_json : json) : str :=
  match scenes_of origin_json with
  | Some _ => filename ++ u " extract DONE!"
  | None => filename ++ u " skipped (no scenes)."
  end.

(** The document in the source file [name], when the file exists and
    holds valid JSON. *)
Definition document (w : world) (name : str) : option json :=
  json_dir w !! name ≫= parsed.

(** The line [extract_file] logs for [name] in world [w]. *)
Definition file_log (w : world) (name : str) : str :=
  from_option (file_message name) [] (document w name).

(** The document of [settled_world]. *)
Definition settled_document : json :=
  JDict [(u "scenes",
          JList [JDict [(u "texts",
                         JList [JList [JNull; JStr (u "Amy"); JStr (u "Hi")]])]])].

(** The world a run from [settled_world] leaves. *)
Definition settled_world_after : world :=
  World (json_dir settled_world)
        {[ u "a.json" := text_artifact settled_document ]}
        {[ u "a.json" := select_artifact settled_document ]}
        (Some [u "a.json"]) (Some (20%Z, u "Thu Jan  1 00:00:20 1970"))
        20 (u "Thu Jan  1 00:00:20 1970")
        [u "a.json extract DONE!"; u "Extract time updated."].


(** The value of a hexadecimal digit written by [hex_digit]. *)
Definition unhex (h : N) : N :=
  (if h <? 58 then h - 48 else h - 87)%N.

(** Reads back the first character of an escaped string: the character
    and the rest of the text. *)
Definition unescape_head (s : str) : option (N * str) :=
  match s with
  | [] => None
  | c :: r =>
      if (c =? 92)%N then
        match r with
        | [] => None
        | e :: r =>
            if (e =? 92)%N then Some (92%N, r)
            else if (e =? 34)%N then Some (34%N, r)
            else if (e =? 98)%N then Some (8%N, r)
            else if (e =? 102)%N then Some (12%N, r)
            else if (e =? 110)%N then Some (10%N, r)
            else if (e =? 114)%N then Some (13%N, r)
            else if (e =? 116)%N then Some (9%N, r)
            else match r with
                 | _ :: _ :: h1 :: h2 :: r => Some ((16 * unhex h1 + unhex h2)%N, r)
                 | _ => None
                 end
        end
      else Some (c, r)
  end.

(** What follows the first of the items joined by [sep] when [tail_end]
    follows the join. *)
Definition join_tail (sep tail_end : str) (items : list str) : str :=
  flat_map (λ item, sep ++ item) items ++ tail_end.

(** One formatted item of [format_scene]. *)
Definition formatted_item (index : nat) (value : option str) : str :=
  let dumped := json_dumps value in
  if Nat.even index then dumped else u "  " ++ dumped.

(** The separator of the items of a scene block. *)
Definition item_separator : str := u "," ++ nl ++ u "    ".

(** The closing line of a scene block. *)
Definition scene_end : str := nl ++ u "  ]".

(** The world [extract_file] leaves for [a.json] in
    [world_without_scenes]. *)
Definition world_without_scenes_after : world :=
  written world_without_scenes (u "a.json") [91; 10; 93]%N (u "[]")
          (u "a.json" ++ u " skipped (no scenes).").

(** The number of bytes of the UTF-8 encoding of a string. *)
Definition utf8_length (s : str) : N :=
  fold_right (λ c n, ((if c <? 0x80 then 1
                       else if c <? 0x800 then 2
                       else if c <? 0x10000 then 3
                       else 4) + n)%N)
             0%N s.

(** A manifest line that is a plain file name: not empty, not [.] or
    [..], without a path separator or a NUL character, encodable, and
    at most 255 bytes long.  For such a name, and for such a name only,
    [JSON_DIR / name], [EXTRACT_TEXT_DIR / name] and
    [EXTRACT_SELECT_DIR / name] are three files, one directly in each
    directory, and different names are different files: this is what
    the three stores of [world] keyed by name stand for.  A line with a
    directory part, an absolute line or a line such as [./a.json] names
    a file elsewhere or a file that another line names too, and is
    outside of what the stores model. *)
Definition plain_name (name : str) : bool :=
  non_empty name
  && utf8_encodable name
  && forallb (λ c, negb (c =? 0)%N && negb (c =? 47)%N && negb (c =? 92)%N) name
  && negb (bool_decide (name = u "."))
  && negb (bool_decide (name = u ".."))
  && (utf8_length name <=? 255)%N.

(** Every line of the manifest that is not blank is a plain file
    name. *)
Definition plain_manifest (lines : list str) : bool :=
  forallb (λ line, negb (non_empty line) || plain_name line) lines.

(** The names the Change Detector hands to the driver in world [w]. *)
Definition modified_files_of (w : world) (lines : list str) : list str :=
  List.filter (is_modified w) (List.filter non_empty lines).

(** * Properties *)

(** ** Marker cleaning *)

Lemma replace_scan_cons old new c s :
  replace_scan old new (c :: s)
  = if starts_with old (c :: s)
    then new ++ replace_scan old new (drop (length old - 1) s)
    else c :: replace_scan old new s.
Proof.
  simp replace_scan. destruct (starts_with old (c :: s)); reflexivity.
Qed.

Lemma starts_with_true old s : starts_with old s = true <-> old `prefix_of` s.
Proof. unfold starts_with. apply bool_decide_eq_true. Qed.

Lemma starts_with_false old s : starts_with old s = false <-> ¬ old `prefix_of` s.
Proof. unfold starts_with. apply bool_decide_eq_false. Qed.

Lemma unbordered_b_spec old : unbordered_b old = true → unbordered old.
Proof.
  unfold unbordered_b. rewrite forallb_forall. intros H k Hk Hpre.
  specialize (H k). rewrite in_seq in H.
  assert (Hn : negb (starts_with (drop k old) old) = true) by (apply H; lia).
  apply negb_true_iff, starts_with_false in Hn. contradiction.
Qed.

Lemma prefix_app_short (l a b : str) :
  l `prefix_of` a ++ b → length l ≤ length a → l `prefix_of` a.
Proof.
  intros [r Hr] Hlen.
  exists (drop (length l) a).
  rewrite <- (take_drop (length l) a) at 1. f_equal.
  assert (Ht : take (length l) (a ++ b) = take (length l) (l ++ r)) by (rewrite Hr; reflexivity).
  rewrite take_app_le in Ht by lia.
  rewrite take_app_length in Ht. exact Ht.
Qed.

Section Replace.
Variables old new : str.
Hypothesis old_non_empty : old ≠ [].

Lemma replace_scan_no_occurrence s :
  ¬ occurs_in old s → replace_scan old new s = s.
Proof.
  induction s as [|c s IH]; intros Hno; [reflexivity|].
  rewrite replace_scan_cons.
  destruct (starts_with old (c :: s)) eqn:E.
  - exfalso. apply Hno. apply starts_with_true in E as [r Hr].
    exists [], r. exact Hr.
  - f_equal. apply IH. intros (a & b & Hs). apply Hno.
    exists (c :: a), b. rewrite Hs. reflexivity.
Qed.

Hypothesis old_unbordered : unbordered old.

Lemma replace_scan_at_occurrence b :
  replace_scan old new (old ++ b) = new ++ replace_scan old new b.
Proof.
  destruct old as [|c old'] eqn:E; [contradiction|].
  change ((c :: old') ++ b) with (c :: (old' ++ b)).
  rewrite replace_scan_cons.
  assert (Hs : starts_with (c :: old') (c :: old' ++ b) = true).
  { apply starts_with_true. exists b. reflexivity. }
  rewrite Hs.
  replace (length (c :: old') - 1) with (length old') by (simpl; lia).
  rewrite drop_app_length. reflexivity.
Qed.

Lemma replace_scan_occurrence a b :
  replace_scan old new (a ++ old ++ b)
  = replace_scan old new a ++ new ++ replace_scan old new b.
Proof.
  remember (length a) as n eqn:Hn. revert a Hn.
  induction n as [n IH] using lt_wf_ind. intros a Hn.
  destruct a as [|c a].
  { simpl. rewrite replace_scan_at_occurrence. reflexivity. }
  change ((c :: a) ++ old ++ b) with (c :: (a ++ old ++ b)).
  rewrite !replace_scan_cons.
  destruct (starts_with old (c :: a ++ old ++ b)) eqn:E.
  - apply starts_with_true in E.
    destruct (decide (length old ≤ length (c :: a))) as [Hle|Hgt].
    + pose proof (prefix_app_short old (c :: a) (old ++ b) E Hle) as Hpa.
      assert (Hs : starts_with old (c :: a) = true) by (apply starts_with_true; exact Hpa).
      rewrite Hs. destruct Hpa as [a' Ha'].
      destruct old as [|c' old'] eqn:Eo; [contradiction|].
      injection Ha' as -> ->.
      replace (length (c' :: old') - 1) with (length old') by (simpl; lia).
      rewrite <- (List.app_assoc old' a'). rewrite !drop_app_length.
      rewrite <- List.app_assoc. f_equal.
      apply (IH (length a')); [|reflexivity].
      subst n. simpl. rewrite length_app. lia.
    + exfalso. apply (old_unbordered (length (c :: a))).
      * simpl in *. lia.
      * destruct E as [r Hr].
        assert (Hd : drop (length (c :: a)) ((c :: a) ++ old ++ b)
                     = drop (length (c :: a)) (old ++ r)) by (rewrite <- Hr; reflexivity).
        rewrite drop_app_length in Hd.
        rewrite drop_app_le in Hd by lia.
        apply (prefix_app_short _ old b).
        -- exists r. exact Hd.
        -- rewrite length_drop. lia.
  - assert (Hs : starts_with old (c :: a) = false).
    { apply starts_with_false. intros Hp. apply starts_with_false in E. apply E.
      change (c :: a ++ old ++ b) with ((c :: a) ++ old ++ b).
      apply prefix_app_r. exact Hp. }
    rewrite Hs. simpl. f_equal.
    apply (IH (length a)); [subst n; simpl; lia | reflexivity].
Qed.
End Replace.

Lemma markers_unbordered marker :
  marker ∈ TEXT_MARKERS_TO_REMOVE → marker ≠ [] ∧ unbordered marker.
Proof.
  unfold TEXT_MARKERS_TO_REMOVE. rewrite !elem_of_cons, elem_of_nil.
  intros [-> | [-> | []]]; (split; [discriminate | apply unbordered_b_spec; vm_compute; reflexivity]).
Qed.

Lemma str_replace_non_empty old new s :
  old ≠ [] → str_replace old new s = replace_scan old new s.
Proof. destruct old; [contradiction | reflexivity]. Qed.

(** C7. Marker cleaning runs one pass per marker, the pass for
    [%fSourceHanSansCN-M;] before the pass for [%f;].  A pass removes
    all occurrences of its marker: a string without an occurrence is
    left as it is, and at every occurrence [a ++ marker ++ b] of the
    marker the pass yields the pass over [a] followed by the pass over
    [b].  In particular [%fSourceHanSansCN-M;Hello%f;] cleans to
    [Hello]. *)
Theorem clean_text_markers_removes_all (text : str) :
  clean_text_markers (Some text)
  = Some (str_replace (u "%f;") [] (str_replace (u "%fSourceHanSansCN-M;") [] text))
  ∧ (∀ marker, marker ∈ TEXT_MARKERS_TO_REMOVE →
       (∀ s, ¬ occurs_in marker s → str_replace marker [] s = s)
       ∧ (∀ a b, str_replace marker [] (a ++ marker ++ b)
                 = str_replace marker [] a ++ str_replace marker [] b))
  ∧ clean_text_markers (Some (u "%fSourceHanSansCN-M;Hello%f;")) = Some (u "Hello").
Proof.
  split; [reflexivity|]. split; [|vm_compute; reflexivity].
  intros marker Hin. destruct (markers_unbordered marker Hin) as [Hne Hub].
  split.
  - intros s Hs. rewrite str_replace_non_empty by exact Hne.
    apply replace_scan_no_occurrence. exact Hs.
  - intros a b. rewrite !str_replace_non_empty by exact Hne.
    apply (replace_scan_occurrence marker [] Hne Hub).
Qed.

(** A pass only removes the occurrences it meets: text around a removed
    marker can close up to a new marker, which stays. *)
Example clean_text_markers_closes_up :
  clean_text_markers (Some (u "%%f;f;")) = Some (u "%f;").
Proof. vm_compute. reflexivity. Qed.

(** ** Language items *)

Lemma is_language_item_spec item :
  is_language_item item = true ↔ ∃ text, LanguageItem item text.
Proof.
  split.
  - destruct item as [| | | | |l|]; simpl; try discriminate.
    destruct l as [|a [|b r]]; simpl; try discriminate.
    destruct b; simpl; try discriminate. intros _. eexists _, _, _. reflexivity.
  - intros (text & first & rest & ->). reflexivity.
Qed.

Lemma non_empty_spec {A} (l : list A) : non_empty l = true ↔ l ≠ [].
Proof. destruct l; simpl; split; congruence. Qed.

Lemma has_text_spec item : has_text item = true ↔ NonEmptyText item.
Proof.
  unfold has_text. rewrite andb_true_iff, is_language_item_spec. split.
  - intros [(text & first & rest & ->) H]. simpl in H.
    exists text. split; [eexists _, _; reflexivity|]. apply non_empty_spec, H.
  - intros (text & (first & rest & ->) & Hne). split.
    + exists text, first, rest. reflexivity.
    + simpl. apply non_empty_spec, Hne.
Qed.

Lemma zh_char_spec c : zh_char c = true ↔ CJK c.
Proof.
  unfold zh_char, CJK.
  rewrite !orb_true_iff, !andb_true_iff, !N.leb_le. tauto.
Qed.

Lemma ZH_RE_search_spec s : ZH_RE_search s = true ↔ ∃ c, c ∈ s ∧ CJK c.
Proof.
  unfold ZH_RE_search. rewrite existsb_exists. split.
  - intros (c & Hin & Hc). exists c. split; [apply list_elem_of_In, Hin | apply zh_char_spec, Hc].
  - intros (c & Hin & Hc). exists c. split; [apply list_elem_of_In, Hin | apply zh_char_spec, Hc].
Qed.

Lemma has_zh_text_spec item : has_zh_text item = true ↔ CJKText item.
Proof.
  unfold has_zh_text. rewrite andb_true_iff, has_text_spec. split.
  - intros [(text & (first & rest & ->) & Hne) H]. simpl in H.
    exists text. split; [eexists _, _; reflexivity|]. split; [exact Hne|].
    apply ZH_RE_search_spec, H.
  - intros (text & (first & rest & ->) & Hne & Hc). split.
    + exists text. split; [eexists _, _; reflexivity | exact Hne].
    + simpl. apply ZH_RE_search_spec, Hc.
Qed.

Lemma has_text_false item : has_text item = false ↔ ¬ NonEmptyText item.
Proof. rewrite <- has_text_spec. destruct (has_text item); split; congruence. Qed.

Lemma has_zh_text_false item : has_zh_text item = false ↔ ¬ CJKText item.
Proof. rewrite <- has_zh_text_spec. destruct (has_zh_text item); split; congruence. Qed.

Lemma find_first {A} (p : A → bool) (l : list A) x :
  List.find p l = Some x →
  ∃ pre post, l = pre ++ x :: post ∧ p x = true ∧ Forall (λ y, p y = false) pre.
Proof.
  induction l as [|y l IH]; simpl; [discriminate|].
  destruct (p y) eqn:E.
  - intros [= ->]. exists [], l. repeat split; [exact E | constructor].
  - intros H. destruct (IH H) as (pre & post & -> & Hx & Hpre).
    exists (y :: pre), post. repeat split; [exact Hx | constructor; assumption].
Qed.

Lemma find_none_Forall {A} (p : A → bool) (l : list A) :
  List.find p l = None → Forall (λ y, p y = false) l.
Proof.
  induction l as [|y l IH]; simpl; [constructor|].
  destruct (p y) eqn:E; [discriminate|]. intros H. constructor; auto.
Qed.

Lemma find_last {A} (p : A → bool) (l : list A) x :
  List.find p (reverse l) = Some x →
  ∃ pre post, l = pre ++ x :: post ∧ p x = true ∧ Forall (λ y, p y = false) post.
Proof.
  intros H. destruct (find_first _ _ _ H) as (pre & post & Hl & Hx & Hpre).
  exists (reverse post), (reverse pre). split; [|split; [exact Hx|]].
  - rewrite <- (reverse_involutive l), Hl.
    rewrite reverse_app, reverse_cons, <- List.app_assoc. reflexivity.
  - apply Forall_reverse. exact Hpre.
Qed.

Lemma pick_preferred_spec language_list :
  match pick_preferred language_list PREFERRED_ZH_INDEXES with
  | Some item =>
      (language_list !! 3 = Some item ∧ NonEmptyText item)
      ∨ (no_text_at language_list 3 ∧ language_list !! 2 = Some item ∧ NonEmptyText item)
  | None => no_text_at language_list 3 ∧ no_text_at language_list 2
  end.
Proof.
  unfold PREFERRED_ZH_INDEXES, pick_preferred, no_text_at.
  destruct (language_list !! 3) as [i3|] eqn:E3.
  - destruct (has_text i3) eqn:H3.
    + left. split; [reflexivity | apply has_text_spec, H3].
    + assert (N3 : ∀ item, Some i3 = Some item → ¬ NonEmptyText item).
      { intros item [= <-]. apply has_text_false, H3. }
      destruct (language_list !! 2) as [i2|] eqn:E2.
      * destruct (has_text i2) eqn:H2.
        -- right. split; [exact N3|]. split; [reflexivity | apply has_text_spec, H2].
        -- split; [exact N3|]. intros item [= <-]. apply has_text_false, H2.
      * split; [exact N3 | discriminate].
  - destruct (language_list !! 2) as [i2|] eqn:E2.
    + destruct (has_text i2) eqn:H2.
      * right. split; [discriminate|]. split; [reflexivity | apply has_text_spec, H2].
      * split; [discriminate|]. intros item [= <-]. apply has_text_false, H2.
    + split; discriminate.
Qed.

(** C1. The Language Selector returns the item at index 3 when it has
    non-empty text, else the item at index 2 when it has; failing both,
    the first item in forward order whose non-empty text holds a CJK
    code point; failing that, the last item of the list (the first in
    reverse order) with non-empty text; and no item when no item has
    non-empty text.  On the example list the selection is the item
    ["C", "你好"], and the entry holding that list yields (C, 你好). *)
Theorem pick_language_entry_tiers (language_list : list json) :
  match pick_language_entry language_list with
  | Some item =>
      (language_list !! 3 = Some item ∧ NonEmptyText item)
      ∨ (no_text_at language_list 3
         ∧ language_list !! 2 = Some item ∧ NonEmptyText item)
      ∨ (no_text_at language_list 3 ∧ no_text_at language_list 2
         ∧ ∃ pre post, language_list = pre ++ item :: post
                       ∧ CJKText item ∧ Forall (λ i, ¬ CJKText i) pre)
      ∨ (no_text_at language_list 3 ∧ no_text_at language_list 2
         ∧ Forall (λ i, ¬ CJKText i) language_list
         ∧ ∃ pre post, language_list = pre ++ item :: post
                       ∧ NonEmptyText item ∧ Forall (λ i, ¬ NonEmptyText i) post)
  | None => Forall (λ i, ¬ NonEmptyText i) language_list
  end
  ∧ pick_language_entry example_language_list
    = Some (JList [JStr (u "C"); JStr [0x4F60; 0x597D]%N])
  ∧ extract_character_and_text (JList [JList example_language_list])
    = (Some (u "C"), Some [0x4F60; 0x597D]%N).
Proof.
  split; [|split; vm_compute; reflexivity].
  unfold pick_language_entry.
  pose proof (pick_preferred_spec language_list) as Hp.
  destruct (pick_preferred language_list PREFERRED_ZH_INDEXES) as [item|].
  { destruct Hp as [H | H]; [left | right; left]; exact H. }
  destruct Hp as [N3 N2].
  destruct (List.find has_zh_text language_list) as [item|] eqn:Ezh.
  { right; right; left. split; [exact N3|]. split; [exact N2|].
    destruct (find_first _ _ _ Ezh) as (pre & post & Hl & Hx & Hpre).
    exists pre, post. split; [exact Hl|]. split; [apply has_zh_text_spec, Hx|].
    eapply Forall_impl; [exact Hpre|]. intros i Hi. apply has_zh_text_false, Hi. }
  assert (Hnozh : Forall (λ i, ¬ CJKText i) language_list).
  { eapply Forall_impl; [apply (find_none_Forall _ _ Ezh)|].
    intros i Hi. apply has_zh_text_false, Hi. }
  destruct (List.find has_text (reverse language_list)) as [item|] eqn:Erev.
  - right; right; right. split; [exact N3|]. split; [exact N2|]. split; [exact Hnozh|].
    destruct (find_last _ _ _ Erev) as (pre & post & Hl & Hx & Hpost).
    exists pre, post. split; [exact Hl|]. split; [apply has_text_spec, Hx|].
    eapply Forall_impl; [exact Hpost|]. intros i Hi. apply has_text_false, Hi.
  - apply find_none_Forall in Erev. apply Forall_reverse in Erev.
    rewrite reverse_involutive in Erev.
    eapply Forall_impl; [exact Erev|]. intros i Hi. apply has_text_false, Hi.
Qed.

Lemma pick_preferred_has_text language_list indexes item :
  pick_preferred language_list indexes = Some item → has_text item = true.
Proof.
  induction indexes as [|i indexes IH]; simpl; [discriminate|].
  destruct (language_list !! i) as [x|]; [|exact IH].
  destruct (has_text x) eqn:E; [|exact IH]. intros [= <-]. exact E.
Qed.

Lemma has_zh_text_has_text item : has_zh_text item = true → has_text item = true.
Proof. unfold has_zh_text. intros H. apply andb_true_iff in H. tauto. Qed.

(** Every tier of [pick_language_entry] accepts only items with
    non-empty text. *)
Lemma pick_language_entry_has_text language_list item :
  pick_language_entry language_list = Some item → has_text item = true.
Proof.
  unfold pick_language_entry.
  destruct (pick_preferred _ _) as [x|] eqn:E1.
  { intros [= <-]. eapply pick_preferred_has_text, E1. }
  destruct (List.find has_zh_text _) as [x|] eqn:E2.
  { intros [= <-]. apply List.find_some in E2 as [_ E2]. apply has_zh_text_has_text, E2. }
  intros E3. apply List.find_some in E3 as [_ E3]. exact E3.
Qed.

(** C10. Every selection tier accepts only an item whose raw text is
    non-empty, yet extraction can return the empty string as text: the
    entry [[[["A", "%f;"]]]] holds a language list, its only item is
    selected, and its text is empty once the marker is removed. *)
Theorem cleaned_text_can_be_empty :
  (∀ language_list item,
     pick_language_entry language_list = Some item → NonEmptyText item)
  ∧ ∃ text_entry language_list,
      find_language_list text_entry = Some language_list
      ∧ pick_language_entry language_list = Some (JList [JStr (u "A"); JStr (u "%f;")])
      ∧ extract_character_and_text text_entry = (Some (u "A"), Some []).
Proof.
  split.
  - intros language_list item H. apply has_text_spec.
    eapply pick_language_entry_has_text, H.
  - exists (JList [JList [JList [JStr (u "A"); JStr (u "%f;")]]]),
           [JList [JStr (u "A"); JStr (u "%f;")]].
    vm_compute. repeat split.
Qed.

(** C2. On the legacy two-element entry ["Amy", "Hi"] extraction takes
    the text from index 1 and, preferring index 1 for the character as
    well, returns the text as the character: the result is (Hi, Hi),
    not (Amy, Hi). *)
Theorem legacy_two_element_entry :
  find_language_list (JList [JStr (u "Amy"); JStr (u "Hi")]) = None
  ∧ extract_character_and_text (JList [JStr (u "Amy"); JStr (u "Hi")])
    = (Some (u "Hi"), Some (u "Hi")).
Proof. vm_compute. split; reflexivity. Qed.

(** ** Entry Resolver *)

Lemma language_list_test l :
  non_empty l && forallb is_language_item l = true ↔ LanguageList l.
Proof.
  unfold LanguageList.
  rewrite andb_true_iff, non_empty_spec, forallb_forall, Forall_forall.
  split; intros [H1 H2]; (split; [exact H1|]); intros x Hx.
  - apply is_language_item_spec, H2, list_elem_of_In, Hx.
  - apply is_language_item_spec, H2, list_elem_of_In, Hx.
Qed.

Lemma find_language_list_loop_spec fields :
  match find_language_list_loop fields with
  | Some field =>
      ∃ pre post, fields = pre ++ JList field :: post
                  ∧ LanguageList field
                  ∧ Forall (λ f, ¬ LanguageListField f) pre
  | None => Forall (λ f, ¬ LanguageListField f) fields
  end.
Proof.
  induction fields as [|f fields IH]; simpl; [constructor|].
  assert (Hskip : ¬ LanguageListField f →
    match find_language_list_loop fields with
    | Some field =>
        ∃ pre post, f :: fields = pre ++ JList field :: post
                    ∧ LanguageList field
                    ∧ Forall (λ f, ¬ LanguageListField f) pre
    | None => Forall (λ f, ¬ LanguageListField f) (f :: fields)
    end).
  { intros Hf. destruct (find_language_list_loop fields) as [field|].
    - destruct IH as (pre & post & -> & Hl & Hpre).
      exists (f :: pre), post. split; [reflexivity|]. split; [exact Hl|].
      constructor; assumption.
    - constructor; assumption. }
  destruct f as [| | | | |l|]; try (apply Hskip; intros (l' & [=] & _)).
  destruct (non_empty l && forallb is_language_item l) eqn:E.
  - exists [], fields. split; [reflexivity|]. split; [apply language_list_test, E | constructor].
  - apply Hskip. intros (l' & [= <-] & Hl). apply language_list_test in Hl. congruence.
Qed.

(** C4. The Entry Resolver returns the first field of the entry, in
    field order, that is a non-empty list all of whose elements are
    lists of length at least 2 with a string as second element; it
    returns nothing when the entry is not a list or has no such
    field. *)
Theorem find_language_list_first_field (text_entry : json) :
  match find_language_list text_entry with
  | Some field =>
      ∃ pre post, text_entry = JList (pre ++ JList field :: post)
                  ∧ LanguageList field
                  ∧ Forall (λ f, ¬ LanguageListField f) pre
  | None =>
      (∀ fields, text_entry ≠ JList fields)
      ∨ ∃ fields, text_entry = JList fields
                  ∧ Forall (λ f, ¬ LanguageListField f) fields
  end.
Proof.
  destruct text_entry as [| | | | |fields|]; simpl; try (left; discriminate).
  pose proof (find_language_list_loop_spec fields) as H.
  destruct (find_language_list_loop fields) as [field|].
  - destruct H as (pre & post & -> & Hl & Hpre). exists pre, post. auto.
  - right. exists fields. auto.
Qed.

(** ** Fallback after an empty selection *)

Lemma pick_preferred_elem language_list indexes item :
  pick_preferred language_list indexes = Some item → item ∈ language_list.
Proof.
  induction indexes as [|i indexes IH]; simpl; [discriminate|].
  destruct (language_list !! i) as [x|] eqn:E; [|exact IH].
  destruct (has_text x); [|exact IH].
  intros [= <-]. apply list_elem_of_lookup. exists i. exact E.
Qed.

Lemma pick_language_entry_elem language_list item :
  pick_language_entry language_list = Some item → item ∈ language_list.
Proof.
  unfold pick_language_entry.
  destruct (pick_preferred _ _) as [x|] eqn:E1.
  { intros [= <-]. eapply pick_preferred_elem, E1. }
  destruct (List.find has_zh_text _) as [x|] eqn:E2.
  { intros [= <-]. apply List.find_some in E2 as [E2 _]. apply list_elem_of_In, E2. }
  intros E3. apply List.find_some in E3 as [E3 _].
  apply list_elem_of_In in E3. rewrite elem_of_reverse in E3. exact E3.
Qed.

Lemma pick_language_entry_none language_list :
  Forall (λ item, ¬ NonEmptyText item) language_list →
  pick_language_entry language_list = None.
Proof.
  intros Hall. destruct (pick_language_entry language_list) as [item|] eqn:E; [|reflexivity].
  exfalso. rewrite Forall_forall in Hall.
  apply (Hall item); [eapply pick_language_entry_elem, E|].
  eapply has_text_spec, pick_language_entry_has_text, E.
Qed.

(** How [extract_character_and_text] dispatches on a list entry: the
    selected item when the Language Selector yields one, the legacy
    fallback in every other case. *)
Lemma extract_character_and_text_dispatch fields :
  extract_character_and_text (JList fields)
  = match find_language_list (JList fields) with
    | Some language_list =>
        match pick_language_entry language_list with
        | Some selected => selected_pair fields selected
        | None => legacy_fallback fields
        end
    | None => legacy_fallback fields
    end.
Proof.
  unfold extract_character_and_text.
  pose proof (find_language_list_loop_spec fields) as H.
  simpl. destruct (find_language_list_loop fields) as [l|]; [|reflexivity].
  destruct H as (_ & _ & _ & [Hne _] & _).
  apply non_empty_spec in Hne. rewrite Hne. reflexivity.
Qed.

(** C3, as stated, fails: the entry
    [[[["A", ""]], "Bob", "Hello"]] holds a language list in which no
    item has non-empty text, and extraction returns (Bob, Hello) from
    the legacy fallback instead of no selection. *)
Lemma empty_language_list_not_null :
  find_language_list entry_with_empty_language_list
  = Some [JList [JStr (u "A"); JStr []]]
  ∧ Forall (λ item, ¬ NonEmptyText item) [JList [JStr (u "A"); JStr []]]
  ∧ extract_character_and_text entry_with_empty_language_list
    = (Some (u "Bob"), Some (u "Hello"))
  ∧ ¬ (∀ text_entry language_list,
         find_language_list text_entry = Some language_list →
         Forall (λ item, ¬ NonEmptyText item) language_list →
         extract_character_and_text text_entry = (None, None)).
Proof.
  assert (Hall : Forall (λ item, ¬ NonEmptyText item) [JList [JStr (u "A"); JStr []]]).
  { constructor; [|constructor]. apply has_text_false. reflexivity. }
  split; [reflexivity|]. split; [exact Hall|]. split; [vm_compute; reflexivity|].
  intros H.
  specialize (H entry_with_empty_language_list _ eq_refl Hall).
  vm_compute in H. discriminate H.
Qed.

Lemma pick_language_entry_none_inv language_list :
  pick_language_entry language_list = None →
  Forall (λ item, ¬ NonEmptyText item) language_list.
Proof.
  unfold pick_language_entry.
  destruct (pick_preferred _ _); [discriminate|].
  destruct (List.find has_zh_text _); [discriminate|].
  intros H. apply find_none_Forall, Forall_reverse in H.
  rewrite reverse_involutive in H.
  eapply Forall_impl; [exact H|]. intros item Hitem. apply has_text_false, Hitem.
Qed.

(** C3, amended.  For an entry that is a list, the legacy fallback,
    which reads the entry's indices 1/2 as text, is applied when the
    Entry Resolver finds no language list and when it finds one from
    which the Language Selector selects no item, and only then: when an
    item is selected, the result is the character and cleaned text of
    that item.  The Language Selector selects no item exactly when no
    item of the list has non-empty text, so an entry whose language
    list has no item with non-empty text is resolved by the legacy
    fallback.  An entry that is not a list yields null character and
    null text. *)
Theorem empty_language_list_falls_back (text_entry : json) :
  match text_entry with
  | JList fields =>
      (find_language_list text_entry = None →
       extract_character_and_text text_entry = legacy_fallback fields)
      ∧ (∀ language_list,
           find_language_list text_entry = Some language_list →
           (Forall (λ item, ¬ NonEmptyText item) language_list →
            pick_language_entry language_list = None
            ∧ extract_character_and_text text_entry = legacy_fallback fields)
           ∧ (pick_language_entry language_list = None →
              Forall (λ item, ¬ NonEmptyText item) language_list
              ∧ extract_character_and_text text_entry = legacy_fallback fields)
           ∧ (∀ selected,
                pick_language_entry language_list = Some selected →
                ∃ first raw rest,
                  selected = JList (first :: JStr raw :: rest)
                  ∧ raw ≠ []
                  ∧ selected ∈ language_list
                  ∧ extract_character_and_text text_entry
                    = selected_pair fields selected
                  ∧ selected_pair fields selected
                    = (match first with
                       | JStr (c :: name) => Some (c :: name)
                       | _ => pick_fallback_character fields false
                       end,
                       clean_text_markers (Some raw))))
  | _ => extract_character_and_text text_entry = (None, None)
  end.
Proof.
  destruct text_entry as [| | | | |fields|]; try reflexivity.
  split.
  - intros Hfind. rewrite extract_character_and_text_dispatch, Hfind. reflexivity.
  - intros language_list Hfind. split; [|split].
    + intros Hall. pose proof (pick_language_entry_none _ Hall) as Hpick.
      split; [exact Hpick|].
      rewrite extract_character_and_text_dispatch, Hfind, Hpick. reflexivity.
    + intros Hpick. split; [apply pick_language_entry_none_inv, Hpick|].
      rewrite extract_character_and_text_dispatch, Hfind, Hpick. reflexivity.
    + intros selected Hpick.
      pose proof (pick_language_entry_has_text _ _ Hpick) as Htext.
      apply has_text_spec in Htext as (raw & (first & rest & ->) & Hraw).
      exists first, raw, rest. split; [reflexivity|]. split; [exact Hraw|].
      split; [eapply pick_language_entry_elem, Hpick|]. split.
      * rewrite extract_character_and_text_dispatch, Hfind, Hpick. reflexivity.
      * unfold selected_pair, selected_text. simpl.
        destruct first as [| | | |[|c name]| |]; reflexivity.
Qed.

Lemma empty_language_list_falls_back_witness :
  pick_language_entry [JList [JStr (u "A"); JStr []]] = None
  ∧ extract_character_and_text entry_with_empty_language_list
    = legacy_fallback
        [JList [JList [JStr (u "A"); JStr []]]; JStr (u "Bob"); JStr (u "Hello")].
Proof.
  apply (proj1 (proj2 (empty_language_list_falls_back entry_with_empty_language_list)
                      [JList [JStr (u "A"); JStr []]] eq_refl)).
  constructor; [|constructor]. apply has_text_false. reflexivity.
Defined.

(** ** Scene Walker *)

Section Slots.
Context {A : Type} (none : A).

Lemma ensure_scene_slot_spec (container : list A) index :
  ensure_scene_slot none container index
  = container ++ replicate (S index - length container) none.
Proof.
  funelim (ensure_scene_slot none container index).
  - match goal with IH : _ = _ ++ replicate _ _ |- _ => rewrite IH end.
    rewrite length_app. simpl length.
    replace (S index - length container) with (S (S index - (length container + 1))) by lia.
    simpl. rewrite <- List.app_assoc. reflexivity.
  - replace (S index - length container) with 0 by lia.
    simpl. rewrite app_nil_r. reflexivity.
Qed.

Lemma insert_replicate_last k (v : A) :
  <[k := v]> (replicate (S k) none) = replicate k none ++ [v].
Proof. induction k as [|k IH]; [reflexivity|]. simpl in *. rewrite IH. reflexivity. Qed.

Lemma place_spec (container : list A) index v :
  length container ≤ index →
  place none container index v
  = container ++ replicate (index - length container) none ++ [v].
Proof.
  intros Hle. unfold place. rewrite ensure_scene_slot_spec.
  rewrite insert_app_r_alt by exact Hle. f_equal.
  replace (S index - length container) with (S (index - length container)) by lia.
  apply insert_replicate_last.
Qed.

Lemma aligned_step pre v container :
  aligned none pre container →
  aligned none (pre ++ [v])
          (match v with
           | Some v => place none container (length pre) v
           | None => container
           end).
Proof.
  intros (Hlen & Hslots & Hgap & Hlast).
  destruct v as [x|].
  - rewrite place_spec by exact Hlen.
    set (k := length pre - length container).
    assert (Hl : length (container ++ replicate k none ++ [x]) = S (length pre)).
    { rewrite !length_app, length_replicate. simpl. unfold k. lia. }
    unfold aligned. rewrite Hl. repeat split.
    + rewrite length_app. simpl. lia.
    + intros j Hj.
      destruct (decide (j < length container)) as [Hjc|Hjc].
      { rewrite lookup_app_l by exact Hjc.
        rewrite lookup_app_l by lia. apply Hslots, Hjc. }
      rewrite lookup_app_r by lia.
      destruct (decide (j < length pre)) as [Hjp|Hjp].
      { rewrite lookup_app_l by (rewrite length_replicate; unfold k; lia).
        rewrite lookup_replicate_2 by (unfold k; lia).
        rewrite lookup_app_l by exact Hjp.
        rewrite Hgap by lia. reflexivity. }
      assert (j = length pre) as -> by lia.
      rewrite lookup_app_r by (rewrite length_replicate; unfold k; lia).
      rewrite length_replicate.
      replace (length pre - length container - k) with 0 by (unfold k; lia).
      rewrite lookup_app_r by lia. rewrite Nat.sub_diag. reflexivity.
    + intros j Hj. rewrite lookup_ge_None_2; [reflexivity|].
      rewrite length_app. simpl. lia.
    + right. replace (S (length pre) - 1) with (length pre) by lia.
      rewrite lookup_app_r by lia. rewrite Nat.sub_diag. simpl. eauto.
  - unfold aligned. repeat split.
    + rewrite length_app. simpl. lia.
    + intros j Hj. rewrite lookup_app_l by lia. apply Hslots, Hj.
    + intros j Hj.
      destruct (decide (j < length pre)) as [Hjp|Hjp].
      { rewrite lookup_app_l by exact Hjp. apply Hgap, Hj. }
      destruct (decide (j = length pre)) as [->|Hne].
      { rewrite lookup_app_r by lia. rewrite Nat.sub_diag. reflexivity. }
      rewrite lookup_ge_None_2; [reflexivity|].
      rewrite length_app. simpl. lia.
    + destruct Hlast as [-> | Hsome]; [left; reflexivity|].
      destruct container as [|c container]; [left; reflexivity|]. right.
      simpl length in *. rewrite lookup_app_l by lia. exact Hsome.
Qed.

Lemma aligned_fill values : ∀ pre container,
  aligned none pre container →
  aligned none (pre ++ values) (fill none (length pre) values container).
Proof.
  induction values as [|v values IH]; intros pre container H; simpl.
  - rewrite app_nil_r. exact H.
  - replace (pre ++ v :: values) with ((pre ++ [v]) ++ values)
      by (rewrite <- List.app_assoc; reflexivity).
    replace (S (length pre)) with (length (pre ++ [v]))
      by (rewrite length_app; simpl; lia).
    apply IH, aligned_step, H.
Qed.

Lemma aligned_fill_0 values : aligned none values (fill none 0 values []).
Proof.
  apply (aligned_fill values [] []).
  unfold aligned. simpl. repeat split; auto with lia.
Qed.
End Slots.

Lemma slot_append_insert (l : list (option (list (option str)))) i acc v :
  slot_append (<[i := Some acc]> l) i v = <[i := Some (acc ++ [v])]> l.
Proof.
  unfold slot_append.
  rewrite !list_insert_alter, list_alter_alter_eq. reflexivity.
Qed.

Lemma foldl_slot_append texts : ∀ (l : list (option (list (option str)))) i acc,
  foldl (λ user_text text_entry,
           let '(character, text) := extract_character_and_text text_entry in
           let user_text := slot_append user_text i character in
           slot_append user_text i text)
        (<[i := Some acc]> l) texts
  = <[i := Some (acc ++ flat_lines texts)]> l.
Proof.
  induction texts as [|text_entry texts IH]; intros l i acc.
  - simpl. rewrite app_nil_r. reflexivity.
  - simpl foldl. unfold flat_lines. simpl flat_map. fold (flat_lines texts).
    destruct (extract_character_and_text text_entry) as [character text].
    rewrite !slot_append_insert, IH.
    rewrite <- !List.app_assoc. reflexivity.
Qed.

Lemma walk_texts_spec user_text scene_index texts :
  walk_texts user_text scene_index texts
  = place None user_text scene_index (Some (flat_lines texts)).
Proof.
  unfold walk_texts, place. rewrite foldl_slot_append. reflexivity.
Qed.

Lemma walk_scene_spec scene_index scene user_text user_select :
  walk_scene scene_index scene (user_text, user_select)
  = (match text_slot scene with
     | Some v => place None user_text scene_index v
     | None => user_text
     end,
     match scene_selects scene with
     | Some v => place JNull user_select scene_index v
     | None => user_select
     end).
Proof.
  unfold text_slot.
  destruct scene as [| | | | | |d]; try reflexivity. simpl.
  destruct (dict_get d (u "texts")) as [[| | | | |texts|]|]; try reflexivity.
  simpl. rewrite walk_texts_spec. reflexivity.
Qed.

Lemma walk_scenes_fill scenes : ∀ scene_index user_text user_select,
  walk_scenes scene_index scenes (user_text, user_select)
  = (fill None scene_index (text_slot <$> scenes) user_text,
     fill JNull scene_index (scene_selects <$> scenes) user_select).
Proof.
  induction scenes as [|scene scenes IH]; intros i user_text user_select.
  - reflexivity.
  - cbn [walk_scenes]. rewrite walk_scene_spec, IH. reflexivity.
Qed.

Lemma text_payload_fill scenes :
  text_payload scenes = fill None 0 (text_slot <$> scenes) [].
Proof. unfold text_payload. rewrite walk_scenes_fill. reflexivity. Qed.

Lemma select_payload_fill scenes :
  select_payload scenes = fill JNull 0 (scene_selects <$> scenes) [].
Proof. unfold select_payload. rewrite walk_scenes_fill. reflexivity. Qed.

Lemma lookup_fmap_join {A B} (g : A → option B) (l : list A) j :
  (g <$> l) !! j ≫= id = l !! j ≫= g.
Proof. rewrite list_lookup_fmap. destruct (l !! j); reflexivity. Qed.

Lemma aligned_highest {A} (none : A) values container :
  aligned none values container →
  one_more_than_highest (λ i, is_Some (values !! i ≫= id)) (length container).
Proof.
  intros (_ & _ & Hgap & Hlast). split.
  - intros i Hi. destruct (decide (i < length container)) as [|Hge]; [assumption|].
    rewrite Hgap in Hi by lia. destruct Hi as [? [=]].
  - destruct Hlast as [-> | H]; [left; reflexivity | right; exact H].
Qed.

(** C5. The slots of both payloads are aligned with the scene indices:
    slot [i] of the Text payload is the flat sequence of scene [i] when
    that scene has a [texts] list and null otherwise, slot [i] of the
    Select payload is the [selects] value of scene [i] when it has the
    key and null otherwise.  The length of the Text payload is one more
    than the highest scene index with [texts] (0 when there is none),
    the length of the Select payload one more than the highest index
    with [selects]; the Text payload depends on the [texts] of the
    scenes only, the Select payload on their [selects] only.  When
    scene 2 is the only scene with [texts], the Text payload has length
    3 and its slots 0 and 1 are null. *)
Theorem scene_walker_alignment (scenes : list json) :
  (∀ i, i < length (text_payload scenes) →
        text_payload scenes !! i = Some (flat_lines <$> (scenes !! i ≫= scene_texts)))
  ∧ (∀ i, i < length (select_payload scenes) →
          select_payload scenes !! i = Some (default JNull (scenes !! i ≫= scene_selects)))
  ∧ one_more_than_highest (λ i, is_Some (scenes !! i ≫= scene_texts))
                          (length (text_payload scenes))
  ∧ one_more_than_highest (λ i, is_Some (scenes !! i ≫= scene_selects))
                          (length (select_payload scenes))
  ∧ (∀ scenes', scene_texts <$> scenes' = scene_texts <$> scenes →
                text_payload scenes' = text_payload scenes)
  ∧ (∀ scenes', scene_selects <$> scenes' = scene_selects <$> scenes →
                select_payload scenes' = select_payload scenes)
  ∧ ((∀ i, is_Some (scenes !! i ≫= scene_texts) ↔ i = 2) →
     length (text_payload scenes) = 3
     ∧ text_payload scenes !! 0 = Some None
     ∧ text_payload scenes !! 1 = Some None).
Proof.
  pose proof (aligned_fill_0 None (text_slot <$> scenes)) as Ht.
  pose proof (aligned_fill_0 JNull (scene_selects <$> scenes)) as Hs.
  rewrite <- text_payload_fill in Ht. rewrite <- select_payload_fill in Hs.
  assert (Hslot : ∀ i, i < length (text_payload scenes) →
    text_payload scenes !! i = Some (flat_lines <$> (scenes !! i ≫= scene_texts))).
  { intros i Hi. destruct Ht as (_ & Hslots & _). rewrite (Hslots i Hi).
    rewrite lookup_fmap_join. unfold text_slot.
    destruct (scenes !! i) as [scene|]; [|reflexivity]. simpl.
    destruct (scene_texts scene); reflexivity. }
  assert (Hlen : one_more_than_highest (λ i, is_Some (scenes !! i ≫= scene_texts))
                                       (length (text_payload scenes))).
  { destruct (aligned_highest _ _ _ Ht) as [Hup Hlast].
    assert (Heq : ∀ i, is_Some (scenes !! i ≫= scene_texts)
                       ↔ is_Some ((text_slot <$> scenes) !! i ≫= id)).
    { intros i. rewrite lookup_fmap_join. unfold text_slot.
      destruct (scenes !! i) as [scene|]; simpl; [|split; intros [? [=]]].
      destruct (scene_texts scene); simpl; split; intros [? [=]]; eauto. }
    split.
    - intros i Hi. apply Hup, Heq, Hi.
    - destruct Hlast as [H0 | H]; [left; exact H0 | right; apply Heq, H]. }
  split; [exact Hslot|]. split.
  { intros i Hi. destruct Hs as (_ & Hslots & _). rewrite (Hslots i Hi).
    rewrite lookup_fmap_join. reflexivity. }
  split; [exact Hlen|]. split.
  { destruct (aligned_highest _ _ _ Hs) as [Hup Hlast]. split.
    - intros i Hi. apply Hup. rewrite lookup_fmap_join. exact Hi.
    - destruct Hlast as [H0 | H]; [left; exact H0 | right].
      rewrite lookup_fmap_join in H. exact H. }
  split.
  { intros scenes' Heq. rewrite !text_payload_fill.
    assert (Hc : ∀ l : list json,
      text_slot <$> l
      = fmap (λ texts, Some (flat_lines texts)) <$> (scene_texts <$> l)).
    { intros l. rewrite <- list_fmap_compose. reflexivity. }
    rewrite !Hc, Heq. reflexivity. }
  split.
  { intros scenes' Heq. rewrite !select_payload_fill, Heq. reflexivity. }
  intros Honly. destruct Hlen as [Hup Hlast].
  assert (H2 : 2 < length (text_payload scenes)) by (apply Hup, Honly; reflexivity).
  assert (H3 : length (text_payload scenes) = 3).
  { destruct Hlast as [H0 | H]; [lia|]. apply Honly in H. lia. }
  split; [exact H3|].
  assert (Hnull : ∀ i, i ≠ 2 → flat_lines <$> (scenes !! i ≫= scene_texts) = None).
  { intros i Hi. destruct (scenes !! i ≫= scene_texts) eqn:E; [|reflexivity].
    exfalso. apply Hi, Honly. rewrite E. eauto. }
  split; (rewrite Hslot by lia; rewrite Hnull by lia; reflexivity).
Qed.

(** What [extract_file] writes for a document with a [scenes] list:
    the two payloads, formatted. *)
Lemma extract_file_with_scenes w filename source origin_json scenes :
  json_dir w !! filename = Some source →
  parsed source = Some origin_json →
  get_scenes origin_json = Some (JList scenes) →
  utf8_encodable (build_text_output (text_payload scenes)) = true →
  utf8_encodable (json_dump (select_payload scenes)) = true →
  extract_file filename w
  = Some (true, written w filename (build_text_output (text_payload scenes))
                        (json_dump (select_payload scenes))
                        (filename ++ u " extract DONE!")).
Proof.
  intros Hsrc Hparsed Hscenes Htext Hselect.
  unfold extract_file, text_payload, select_payload in *.
  rewrite Hsrc, Hparsed, Hscenes.
  destruct (walk_scenes 0 scenes ([], [])) as [user_text user_select].
  unfold write_extract_files, write_text_file, write_select_file, log,
    mbind, io_bind, mret, io_ret.
  cbn [fst snd] in Htext, Hselect. rewrite Htext.
  cbn [text_dir select_dir json_dir json_list last_extract_time now asctime stderr].
  rewrite Hselect. reflexivity.
Qed.

(** ** Change Detector *)

Lemma collect_loop_filter w json_files : ∀ targets,
  collect_loop w (match last_extract_time w with Some _ => true | None => false end)
               (fst <$> last_extract_time w) json_files targets
  = targets ++ List.filter (is_modified w) json_files.
Proof.
  induction json_files as [|name json_files IH]; intros targets.
  - simpl. rewrite app_nil_r. reflexivity.
  - cbn [collect_loop List.filter].
    destruct (is_modified w name) eqn:Em; unfold is_modified in Em;
      destruct (json_dir w !! name) as [source|]; try discriminate Em;
      try apply IH;
      destruct (last_extract_time w) as [[mtime content]|]; simpl in *;
      try rewrite Em; try discriminate Em;
      rewrite IH; try rewrite <- List.app_assoc; reflexivity.
Qed.

Lemma collect_modified_files_filter json_files w :
  collect_modified_files json_files w
  = Some (List.filter (is_modified w) json_files, w).
Proof.
  unfold collect_modified_files. rewrite collect_loop_filter. reflexivity.
Qed.

(** C6. The Change Detector returns, in manifest order, exactly the
    names that are modified, and changes nothing; a name is modified
    when its source file exists and either no persisted timestamp
    exists or the modification time of the source strictly exceeds that
    of the persisted timestamp.  Names without a source file are left
    out without an error, and when no persisted timestamp exists the
    result is exactly the names whose source file exists. *)
Theorem collect_modified_files_spec (w : world) (json_files : list str) :
  collect_modified_files json_files w
  = Some (List.filter (is_modified w) json_files, w)
  ∧ (∀ name,
       is_modified w name = true
       ↔ ∃ source, json_dir w !! name = Some source
                   ∧ (last_extract_time w = None
                      ∨ ∃ mtime content,
                          last_extract_time w = Some (mtime, content)
                          ∧ (mtime < st_mtime source)%Z))
  ∧ (last_extract_time w = None →
     collect_modified_files json_files w
     = Some (List.filter (source_exists w) json_files, w))
  ∧ (∀ name, source_exists w name = true ↔ is_Some (json_dir w !! name)).
Proof.
  split; [apply collect_modified_files_filter|]. split; [|split].
  - intros name. unfold is_modified.
    destruct (json_dir w !! name) as [source|].
    + destruct (last_extract_time w) as [[mtime content]|].
      * rewrite Z.ltb_lt. split.
        -- intros H. exists source. split; [reflexivity|]. right. eauto.
        -- intros (source' & [= <-] & [[=] | (mtime' & content' & [= <- <-] & H)]). exact H.
      * split; [|reflexivity]. intros _. exists source. auto.
    + split; [discriminate|]. intros (source & [=] & _).
  - intros Hnone. rewrite collect_modified_files_filter. do 2 f_equal.
    apply List.filter_ext. intros name. unfold is_modified, source_exists.
    rewrite Hnone. reflexivity.
  - intros name. unfold source_exists.
    destruct (json_dir w !! name); split; try discriminate; eauto.
    intros [? [=]].
Qed.

(** ** Documents without scenes *)

(** C8. For a source document whose [scenes] is absent or not a list,
    [extract_file] does not raise and returns [True]; it writes the
    Text artifact as the three characters [[], newline, []], writes the
    Select artifact as [[]], and logs the file as skipped. *)
Theorem extract_file_without_scenes (w : world) (filename : str)
    (source : source_file) (origin_json : json) :
  json_dir w !! filename = Some source →
  parsed source = Some origin_json →
  (∀ scenes, get_scenes origin_json ≠ Some (JList scenes)) →
  extract_file filename w
  = Some (true, written w filename [91; 10; 93]%N (u "[]")
                        (filename ++ u " skipped (no scenes)."))
  ∧ build_text_output [] = [91; 10; 93]%N
  ∧ json_dump [] = u "[]".
Proof.
  intros Hsrc Hparsed Hscenes.
  split; [|split; reflexivity].
  unfold extract_file. rewrite Hsrc, Hparsed.
  destruct (get_scenes origin_json) as [[| | | | |scenes|]|]; try reflexivity.
  exfalso. apply (Hscenes scenes). reflexivity.
Qed.

Lemma extract_file_without_scenes_witness :
  extract_file (u "a.json") world_without_scenes
  = Some (true, written world_without_scenes (u "a.json") [91; 10; 93]%N (u "[]")
                        (u "a.json" ++ u " skipped (no scenes)."))
  ∧ build_text_output [] = [91; 10; 93]%N
  ∧ json_dump [] = u "[]".
Proof.
  apply (extract_file_without_scenes world_without_scenes (u "a.json")
           (SourceFile 10 (Some (JDict []))) (JDict [])).
  - vm_compute. reflexivity.
  - reflexivity.
  - intros scenes. simpl. discriminate.
Defined.

(** ** Two runs in succession *)

Lemma extract_file_result filename w b w' :
  extract_file filename w = Some (b, w') → b = true ∧ same_inputs w w'.
Proof.
  unfold extract_file, same_inputs.
  destruct (json_dir w !! filename) as [source|]; [|discriminate].
  destruct (parsed source) as [origin_json|]; [|discriminate].
  assert (Hwrite : ∀ user_text user_select message,
    (write_extract_files filename user_text user_select;;
     log message;; mret true) w = Some (b, w') →
    b = true ∧ json_dir w' = json_dir w ∧ json_list w' = json_list w
    ∧ last_extract_time w' = last_extract_time w
    ∧ now w' = now w ∧ asctime w' = asctime w).
  { intros user_text user_select message.
    unfold write_extract_files, write_text_file, write_select_file, log,
      mbind, io_bind, mret, io_ret.
    destruct (utf8_encodable (build_text_output user_text)); [|discriminate].
    cbn [text_dir select_dir json_dir json_list last_extract_time now asctime stderr].
    destruct (utf8_encodable (json_dump user_select)); [|discriminate].
    intros [= <- <-]. simpl. repeat split; reflexivity. }
  destruct (get_scenes origin_json) as [[| | | | |scenes|]|]; try apply Hwrite.
  destruct (walk_scenes 0 scenes ([], [])) as [user_text user_select].
  apply Hwrite.
Qed.

Lemma extract_loop_result modified_files : ∀ new_extract w b w',
  extract_loop modified_files new_extract w = Some (b, w') →
  b = new_extract || non_empty modified_files
  ∧ same_inputs w w'
  ∧ (modified_files = [] → w' = w).
Proof.
  induction modified_files as [|filename modified_files IH]; intros new_extract w b w'.
  - intros [= <- <-]. rewrite orb_false_r. unfold same_inputs.
    repeat split; reflexivity.
  - cbn [extract_loop]. unfold mbind at 1, io_bind at 1.
    destruct (extract_file filename w) as [[extracted w1]|] eqn:E; [|discriminate].
    apply extract_file_result in E as [-> (H1 & H2 & H3 & H4 & H5)].
    intros H. apply IH in H as (-> & (G1 & G2 & G3 & G4 & G5) & _).
    split; [rewrite orb_true_r; reflexivity|].
    split; [|discriminate].
    unfold same_inputs. rewrite G1, G2, G3, G4, G5. repeat split; assumption.
Qed.

Lemma main_unfold w lines :
  json_list w = Some lines →
  main w
  = match extract_loop (List.filter (is_modified w) (List.filter non_empty lines))
                       false w with
    | None => None
    | Some (new_extract, w') =>
        if negb new_extract
        then (log (u "No file updated, have a good day!");; mret 0%Z) w'
        else (update_extract_time;; mret 0%Z) w'
    end.
Proof.
  intros Hlist.
  unfold main, read_json_file_list. unfold mbind at 1, io_bind at 1.
  rewrite Hlist.
  unfold mbind at 1, io_bind at 1. rewrite collect_modified_files_filter.
  unfold mbind at 1, io_bind at 1.
  destruct (extract_loop _ false w) as [[new_extract w']|]; [|reflexivity].
  destruct new_extract; reflexivity.
Qed.

Lemma main_no_manifest w : json_list w = None → main w = None.
Proof.
  intros Hlist.
  unfold main, read_json_file_list. unfold mbind at 1, io_bind at 1.
  rewrite Hlist. reflexivity.
Qed.

Lemma filter_none {A} (p : A → bool) (l : list A) :
  (∀ x, In x l → p x = false) → List.filter p l = [].
Proof.
  induction l as [|x l IH]; intros H; [reflexivity|]. simpl.
  rewrite (H x) by (left; reflexivity). apply IH. intros y Hy. apply H. right. exact Hy.
Qed.

Lemma is_modified_inputs w w' name :
  json_dir w' = json_dir w → last_extract_time w' = last_extract_time w →
  is_modified w' name = is_modified w name.
Proof. unfold is_modified. intros -> ->. reflexivity. Qed.

(** A run that finds no modified file only logs that. *)
Lemma main_nothing_modified w lines :
  json_list w = Some lines →
  List.filter (is_modified w) (List.filter non_empty lines) = [] →
  main w
  = Some (0%Z, World (json_dir w) (text_dir w) (select_dir w) (json_list w)
                     (last_extract_time w) (now w) (asctime w)
                     (stderr w ++ [u "No file updated, have a good day!"])).
Proof.
  intros Hlist Hnone. rewrite (main_unfold w lines Hlist), Hnone. reflexivity.
Qed.

(** C9, amended.  After a run that completes, a second run with no
    intervening change of the sources processes no file, leaves the
    output artifacts and the persisted timestamp as they are and logs
    that no file was updated, provided that no source file named in the
    manifest has a modification time later than the time at which the
    first run stamps the persisted timestamp. *)
Theorem second_run_noop (w0 : world) :
  (∀ lines name source,
     json_list w0 = Some lines → name ∈ lines →
     json_dir w0 !! name = Some source → (st_mtime source ≤ now w0)%Z) →
  second_run_is_noop w0.
Proof.
  intros Hpast code w1 Hrun t a.
  destruct (json_list w0) as [lines|] eqn:Hlist;
    [|rewrite (main_no_manifest w0 Hlist) in Hrun; discriminate].
  rewrite (main_unfold w0 lines Hlist) in Hrun.
  set (files := List.filter (is_modified w0) (List.filter non_empty lines)) in *.
  destruct (extract_loop files false w0) as [[new_extract w']|] eqn:Hloop; [|discriminate].
  apply extract_loop_result in Hloop as (-> & (H1 & H2 & H3 & H4 & H5) & Hsame).
  destruct files as [|f files'] eqn:Hfiles.
  - specialize (Hsame eq_refl). subst w'. simpl in Hrun.
    injection Hrun as <- <-.
    rewrite (main_nothing_modified _ lines); [reflexivity | exact Hlist|].
    rewrite <- Hfiles. unfold files. apply List.filter_ext. intros name.
    apply is_modified_inputs; reflexivity.
  - simpl in Hrun. injection Hrun as <- <-.
    rewrite (main_nothing_modified _ lines); [reflexivity | simpl; congruence|].
    apply filter_none. intros name Hin.
    apply List.filter_In in Hin as [Hin _].
    unfold is_modified. simpl. rewrite H1.
    destruct (json_dir w0 !! name) as [source|] eqn:Hsrc; [|reflexivity].
    apply Z.ltb_ge. rewrite H4.
    apply (Hpast lines name source eq_refl); [apply list_elem_of_In, Hin | exact Hsrc].
Qed.

(** C9, as stated, fails: from [future_world] the first run extracts
    [a.json] and stamps the persisted timestamp; the source is still
    newer than the stamp, so the second run extracts it again and logs
    the extraction and the new stamp instead of "No file updated". *)
Lemma future_source_is_extracted_again :
  (∃ w1 w2,
     main future_world = Some (0%Z, w1)
     ∧ main (set_clock 60 (u "Thu Jan  1 00:01:00 1970") w1) = Some (0%Z, w2)
     ∧ stderr w2 = stderr w1 ++ [u "a.json extract DONE!"; u "Extract time updated."])
  ∧ ¬ second_run_is_noop future_world.
Proof.
  split.
  - eexists _, _. split; [vm_compute; reflexivity|].
    split; vm_compute; reflexivity.
  - intros H.
    destruct (main future_world) as [[code w1]|] eqn:E; [|vm_compute in E; discriminate E].
    specialize (H code w1 E 60%Z []).
    vm_compute in E. injection E as <- <-.
    apply (f_equal (λ r, (λ cw, stderr cw.2) <$> r)) in H.
    vm_compute in H. discriminate H.
Qed.

Lemma second_run_noop_witness : second_run_is_noop settled_world.
Proof.
  apply (second_run_noop settled_world).
  intros lines name source _ _ Hsrc. simpl in Hsrc.
  apply lookup_singleton_Some in Hsrc as [_ <-]. simpl. lia.
Defined.

(** The two runs from [settled_world]. *)
Example settled_world_runs :
  ∃ w1 w2,
    main settled_world = Some (0%Z, w1)
    ∧ stderr w1 = [u "a.json extract DONE!"; u "Extract time updated."]
    ∧ last_extract_time w1 = Some (20%Z, u "Thu Jan  1 00:00:20 1970")
    ∧ main (set_clock 30 (u "Thu Jan  1 00:00:30 1970") w1) = Some (0%Z, w2)
    ∧ stderr w2 = stderr w1 ++ [u "No file updated, have a good day!"]
    ∧ text_dir w2 = text_dir w1 ∧ select_dir w2 = select_dir w1
    ∧ last_extract_time w2 = last_extract_time w1.
Proof.
  eexists _, _. split; [vm_compute; reflexivity|].
  repeat split; vm_compute; reflexivity.
Qed.

(** * Further properties *)

(** ** Slots *)

(** X1. [ensure_scene_slot] leaves a container of length
    [max (len container) (index + 1)]: the elements it had stay where
    they were, the new slots up to [index] hold [None], and a second
    call with the same index changes nothing. *)
Theorem ensure_scene_slot_pads {A} (none : A) (container : list A) (index : nat) :
  length (ensure_scene_slot none container index) = max (length container) (S index)
  ∧ (∀ j, j < length container →
          ensure_scene_slot none container index !! j = container !! j)
  ∧ (∀ j, length container ≤ j ≤ index →
          ensure_scene_slot none container index !! j = Some none)
  ∧ ensure_scene_slot none (ensure_scene_slot none container index) index
    = ensure_scene_slot none container index.
Proof.
  rewrite !ensure_scene_slot_spec.
  assert (Hlen : length (container ++ replicate (S index - length container) none)
                 = max (length container) (S index)).
  { rewrite length_app, length_replicate. lia. }
  split; [exact Hlen|]. split; [|split].
  - intros j Hj. apply lookup_app_l, Hj.
  - intros j Hj. rewrite lookup_app_r by lia.
    apply lookup_replicate_2. lia.
  - rewrite Hlen.
    replace (S index - max (length container) (S index)) with 0 by lia.
    simpl. rewrite app_nil_r. reflexivity.
Qed.

(** ** Fallback character *)

Lemma pick_fallback_loop_non_empty text_entry order value :
  pick_fallback_loop text_entry order = Some value → value ≠ [].
Proof.
  induction order as [|index order IH]; simpl; [discriminate|].
  destruct (text_entry !! index) as [[| | | |s| |]|]; try exact IH.
  destruct s as [|c s]; simpl; [exact IH|]. intros [= <-]. discriminate.
Qed.

(** X2. [pick_fallback_character] looks at indexes 1 and 0 only, the
    preferred one first: it returns the string at the preferred index
    when that is a non-empty string, else the string at the other index
    when that is a non-empty string, else nothing; it never returns the
    empty string. *)
Theorem pick_fallback_character_spec (text_entry : list json) (prefer_index1 : bool) :
  let first := if prefer_index1 then 1 else 0 in
  let second := if prefer_index1 then 0 else 1 in
  match pick_fallback_character text_entry prefer_index1 with
  | Some value =>
      value ≠ []
      ∧ (text_entry !! first = Some (JStr value)
         ∨ ((∀ v, text_entry !! first = Some (JStr v) → v = [])
            ∧ text_entry !! second = Some (JStr value)))
  | None =>
      (∀ v, text_entry !! first = Some (JStr v) → v = [])
      ∧ (∀ v, text_entry !! second = Some (JStr v) → v = [])
  end.
Proof.
  assert (Hgen : ∀ first second,
    match pick_fallback_loop text_entry [first; second] with
    | Some value =>
        value ≠ []
        ∧ (text_entry !! first = Some (JStr value)
           ∨ ((∀ v, text_entry !! first = Some (JStr v) → v = [])
              ∧ text_entry !! second = Some (JStr value)))
    | None =>
        (∀ v, text_entry !! first = Some (JStr v) → v = [])
        ∧ (∀ v, text_entry !! second = Some (JStr v) → v = [])
    end).
  { intros first second. simpl.
    assert (Hsecond : (∀ v, text_entry !! first = Some (JStr v) → v = []) →
      match
        match text_entry !! second with
        | Some (JStr value) => if non_empty value then Some value else None
        | _ => None
        end
      with
      | Some value =>
          value ≠ []
          ∧ (text_entry !! first = Some (JStr value)
             ∨ ((∀ v, text_entry !! first = Some (JStr v) → v = [])
                ∧ text_entry !! second = Some (JStr value)))
      | None =>
          (∀ v, text_entry !! first = Some (JStr v) → v = [])
          ∧ (∀ v, text_entry !! second = Some (JStr v) → v = [])
      end).
    { intros Hfirst.
      destruct (text_entry !! second) as [[| | | |s| |]|];
        try (split; [exact Hfirst | intros v; discriminate]).
      destruct s as [|c s]; simpl.
      - split; [exact Hfirst | intros v [= <-]; reflexivity].
      - split; [discriminate | right; split; [exact Hfirst | reflexivity]]. }
    destruct (text_entry !! first) as [[| | | |s| |]|];
      try (apply Hsecond; intros v; discriminate).
    destruct s as [|c s]; simpl.
    - apply Hsecond. intros v [= <-]. reflexivity.
    - split; [discriminate | left; reflexivity]. }
  unfold pick_fallback_character. destruct prefer_index1; apply Hgen.
Qed.

(** ** Extracted characters and texts *)

Lemma selected_pair_character_non_empty text_entry selected :
  (selected_pair text_entry selected).1 ≠ Some [].
Proof.
  unfold selected_pair. cbn [fst].
  destruct (py_index selected 0) as [[| | | |[|c s]| |]|]; try discriminate;
    intros H; apply pick_fallback_loop_non_empty in H; congruence.
Qed.

Lemma legacy_fallback_character_non_empty text_entry :
  (legacy_fallback text_entry).1 ≠ Some [].
Proof.
  assert (H : pick_fallback_character text_entry true ≠ Some []).
  { intros H. apply pick_fallback_loop_non_empty in H. congruence. }
  unfold legacy_fallback.
  destruct (text_entry !! 2) as [[| | | |s| |]|];
    destruct (text_entry !! 1) as [[| | | |s'| |]|]; exact H.
Qed.

(** X3. The character [extract_character_and_text] returns is null or a
    non-empty string, never the empty string, whatever the entry. *)
Theorem extracted_character_never_empty (text_entry : json) :
  (extract_character_and_text text_entry).1 ≠ Some [].
Proof.
  destruct text_entry as [| | | | |fields|]; try discriminate.
  rewrite extract_character_and_text_dispatch.
  destruct (find_language_list (JList fields)) as [language_list|];
    [|apply legacy_fallback_character_non_empty].
  destruct (pick_language_entry language_list) as [selected|];
    [apply selected_pair_character_non_empty | apply legacy_fallback_character_non_empty].
Qed.

(** ** Marker cleaning, continued *)

Lemma replace_scan_sublist old s : replace_scan old [] s `sublist_of` s.
Proof.
  remember (length s) as n eqn:Hn. revert s Hn.
  induction n as [n IH] using lt_wf_ind. intros s Hn.
  destruct s as [|c s]; [constructor|].
  rewrite replace_scan_cons.
  destruct (starts_with old (c :: s)).
  - simpl. apply sublist_cons.
    transitivity (drop (length old - 1) s); [|apply sublist_drop].
    apply (IH (length (drop (length old - 1) s))); [|reflexivity].
    subst n. rewrite length_drop. simpl. lia.
  - apply sublist_skip. apply (IH (length s)); [subst n; simpl; lia | reflexivity].
Qed.

Lemma markers_percent marker s :
  marker ∈ TEXT_MARKERS_TO_REMOVE → occurs_in marker s → 37%N ∈ s.
Proof.
  unfold TEXT_MARKERS_TO_REMOVE. rewrite !elem_of_cons, elem_of_nil.
  intros [-> | [-> | []]] (a & b & ->); rewrite elem_of_app; right; left.
Qed.

(** X4. Marker cleaning only deletes characters: the cleaned text is a
    subsequence of the text it was given, in the same order, and so is
    never longer. *)
Theorem clean_text_markers_sublist (text : str) :
  ∃ cleaned, clean_text_markers (Some text) = Some cleaned
             ∧ cleaned `sublist_of` text
             ∧ length cleaned ≤ length text.
Proof.
  eexists. split; [reflexivity|].
  assert (H : foldl (λ text marker, str_replace marker [] text) text TEXT_MARKERS_TO_REMOVE
              `sublist_of` text).
  { simpl. etransitivity; apply replace_scan_sublist. }
  split; [exact H | apply sublist_length, H].
Qed.

(** X5. A text in which neither marker occurs is returned unchanged by
    marker cleaning. *)
Theorem clean_text_markers_unmarked (text : str) :
  (∀ marker, marker ∈ TEXT_MARKERS_TO_REMOVE → ¬ occurs_in marker text) →
  clean_text_markers (Some text) = Some text.
Proof.
  intros Hno. unfold clean_text_markers, TEXT_MARKERS_TO_REMOVE. simpl. f_equal.
  rewrite (replace_scan_no_occurrence (u "%fSourceHanSansCN-M;") [] text).
  - apply replace_scan_no_occurrence. apply Hno.
    unfold TEXT_MARKERS_TO_REMOVE. rewrite !elem_of_cons. auto.
  - apply Hno. unfold TEXT_MARKERS_TO_REMOVE. rewrite !elem_of_cons. auto.
Qed.

Lemma clean_text_markers_unmarked_witness :
  clean_text_markers (Some (u "Hello")) = Some (u "Hello").
Proof.
  apply (clean_text_markers_unmarked (u "Hello")).
  intros marker Hin Hocc.
  pose proof (markers_percent marker (u "Hello") Hin Hocc) as H.
  vm_compute in H. repeat (apply elem_of_cons in H as [H | H]; [discriminate H|]).
  apply elem_of_nil in H. exact H.
Defined.

(** ** Selected items *)

(** X6. When the Entry Resolver finds a language list and the Language
    Selector selects an item of it, the text returned is the cleaned
    second element of that item, which is a non-empty string, and the
    character is the first element of the item when that is a non-empty
    string and else the entry-level fallback that prefers index 0. *)
Theorem selected_item_gives_pair (fields language_list : list json) (selected : json) :
  find_language_list (JList fields) = Some language_list →
  pick_language_entry language_list = Some selected →
  ∃ first raw rest,
    selected = JList (first :: JStr raw :: rest)
    ∧ raw ≠ []
    ∧ selected ∈ language_list
    ∧ extract_character_and_text (JList fields)
      = (match first with
         | JStr (c :: name) => Some (c :: name)
         | _ => pick_fallback_character fields false
         end,
         clean_text_markers (Some raw)).
Proof.
  intros Hfind Hpick.
  pose proof (pick_language_entry_has_text _ _ Hpick) as Htext.
  apply has_text_spec in Htext as (raw & (first & rest & ->) & Hraw).
  exists first, raw, rest. split; [reflexivity|]. split; [exact Hraw|].
  split; [eapply pick_language_entry_elem, Hpick|].
  rewrite extract_character_and_text_dispatch, Hfind, Hpick.
  unfold selected_pair, selected_text. simpl.
  destruct first as [| | | |[|c name]| |]; reflexivity.
Qed.

Lemma selected_item_gives_pair_witness :
  ∃ first raw rest,
    JList [JStr (u "C"); JStr [0x4F60; 0x597D]%N] = JList (first :: JStr raw :: rest)
    ∧ raw ≠ []
    ∧ JList [JStr (u "C"); JStr [0x4F60; 0x597D]%N] ∈ example_language_list
    ∧ extract_character_and_text (JList [JList example_language_list])
      = (match first with
         | JStr (c :: name) => Some (c :: name)
         | _ => pick_fallback_character [JList example_language_list] false
         end,
         clean_text_markers (Some raw)).
Proof.
  apply (selected_item_gives_pair [JList example_language_list] example_language_list).
  - reflexivity.
  - vm_compute. reflexivity.
Defined.

(** ** Flat sequences *)

Lemma flat_lines_length texts : length (flat_lines texts) = 2 * length texts.
Proof.
  induction texts as [|text_entry texts IH]; [reflexivity|].
  unfold flat_lines in *. simpl flat_map.
  destruct (extract_character_and_text text_entry) as [character text].
  simpl. rewrite IH. lia.
Qed.

Lemma text_payload_slot scenes i :
  i < length (text_payload scenes) →
  text_payload scenes !! i = Some (flat_lines <$> (scenes !! i ≫= scene_texts)).
Proof.
  intros Hi.
  pose proof (aligned_fill_0 None (text_slot <$> scenes)) as (_ & Hslots & _).
  rewrite <- text_payload_fill in Hslots. rewrite (Hslots i Hi).
  rewrite lookup_fmap_join. unfold text_slot.
  destruct (scenes !! i) as [scene|]; [|reflexivity]. simpl.
  destruct (scene_texts scene); reflexivity.
Qed.

(** X7. Every non-null slot of the Text payload belongs to a scene with
    a [texts] list and holds exactly two values, character and text,
    for each dialogue entry of that list, whatever the shape of the
    entries. *)
Theorem text_slot_two_per_entry (scenes : list json) (i : nat) (flat : list (option str)) :
  text_payload scenes !! i = Some (Some flat) →
  ∃ texts, scenes !! i ≫= scene_texts = Some texts
           ∧ flat = flat_lines texts
           ∧ length flat = 2 * length texts.
Proof.
  intros Hslot.
  assert (Hi : i < length (text_payload scenes)) by (eapply lookup_lt_Some, Hslot).
  rewrite (text_payload_slot scenes i Hi) in Hslot.
  destruct (scenes !! i ≫= scene_texts) as [texts|]; [|discriminate].
  injection Hslot as <-. exists texts.
  split; [reflexivity|]. split; [reflexivity | apply flat_lines_length].
Qed.

Lemma text_slot_two_per_entry_witness :
  ∃ texts,
    [JDict [(u "texts", JList [JList [JNull; JStr (u "Amy"); JStr (u "Hi")]; JInt 7])]]
      !! 0 ≫= scene_texts = Some texts
    ∧ [Some (u "Amy"); Some (u "Hi"); None; None] = flat_lines texts
    ∧ length [Some (u "Amy"); Some (u "Hi"); None; None] = 2 * length texts.
Proof.
  apply (text_slot_two_per_entry
           [JDict [(u "texts", JList [JList [JNull; JStr (u "Amy"); JStr (u "Hi")]; JInt 7])]]
           0 [Some (u "Amy"); Some (u "Hi"); None; None]).
  vm_compute. reflexivity.
Defined.

(** ** Lines of the Text artifact *)

Lemma newlines_app a b : newlines (a ++ b) = newlines a + newlines b.
Proof. unfold newlines. rewrite List.filter_app, length_app. reflexivity. Qed.

Lemma newlines_cons c s :
  newlines (c :: s) = (if (10 =? c)%N then 1 else 0) + newlines s.
Proof.
  unfold newlines. cbn [List.filter]. destruct (10 =? c)%N; reflexivity.
Qed.

Lemma hex_digit_not_newline n : (10 =? hex_digit n)%N = false.
Proof. unfold hex_digit. apply N.eqb_neq. destruct (n <? 10)%N; lia. Qed.

Lemma escape_char_newlines c : newlines (escape_char c) = 0.
Proof.
  unfold escape_char.
  repeat match goal with
         | |- context [(c =? ?k)%N] =>
             destruct (c =? k)%N eqn:?; [reflexivity|]
         end.
  destruct (c <? 32)%N.
  - rewrite newlines_app, !newlines_cons, !hex_digit_not_newline. reflexivity.
  - rewrite newlines_cons.
    assert (H : (10 =? c)%N = false) by (rewrite N.eqb_sym; assumption).
    rewrite H. reflexivity.
Qed.

Lemma encode_basestring_newlines s : newlines (encode_basestring s) = 0.
Proof.
  unfold encode_basestring. rewrite !newlines_app.
  assert (H : newlines (flat_map escape_char s) = 0).
  { induction s as [|c s IH]; [reflexivity|].
    simpl. rewrite newlines_app, escape_char_newlines, IH. reflexivity. }
  rewrite H. reflexivity.
Qed.

Lemma json_dumps_newlines value : newlines (json_dumps value) = 0.
Proof. destruct value; [apply encode_basestring_newlines | reflexivity]. Qed.

Lemma str_join_newlines sep items :
  newlines (str_join sep items)
  = sum_list (newlines <$> items) + (length items - 1) * newlines sep.
Proof.
  induction items as [|item items IH]; [reflexivity|].
  destruct items as [|item' items].
  - simpl. lia.
  - change (str_join sep (item :: item' :: items))
      with (item ++ sep ++ str_join sep (item' :: items)).
    rewrite !newlines_app, IH. simpl. lia.
Qed.

Lemma formatted_items_newlines (scene_data : list (option str)) : ∀ f,
  (∀ index value, newlines (f index value) = 0) →
  sum_list (newlines <$> imap f scene_data) = 0.
Proof.
  induction scene_data as [|value scene_data IH]; intros f Hf; [reflexivity|].
  simpl. rewrite Hf. apply IH. intros index v. apply Hf.
Qed.

Lemma format_scene_newlines slot : newlines (format_scene slot) = scene_newlines slot.
Proof.
  destruct slot as [scene_data|]; [|reflexivity].
  unfold format_scene, scene_newlines.
  rewrite !newlines_app, str_join_newlines, length_imap.
  rewrite formatted_items_newlines.
  - rewrite !newlines_app. change (newlines nl) with 1. change (newlines (u "  [")) with 0.
    change (newlines (u "    ")) with 0. change (newlines (u "  ]")) with 0.
    change (newlines (u ",")) with 0. lia.
  - intros index value. destruct (Nat.even index).
    + apply json_dumps_newlines.
    + rewrite newlines_app, json_dumps_newlines. reflexivity.
Qed.

(** X8. The Text artifact is laid out by lines: a dumped value never
    holds a raw newline, so the artifact has one newline for its
    closing bracket, one for a null scene, and for any other scene two
    for its brackets and one for each of its values (one for its empty
    line when it has no value). *)
Theorem text_artifact_lines (text_payload : list (option (list (option str)))) :
  (∀ value, newlines (json_dumps value) = 0)
  ∧ newlines (build_text_output text_payload)
    = 1 + sum_list (scene_newlines <$> text_payload).
Proof.
  split; [apply json_dumps_newlines|].
  unfold build_text_output.
  rewrite !newlines_app, str_join_newlines.
  change (newlines (u "[")) with 0. change (newlines (u ",")) with 0.
  change (newlines nl) with 1. change (newlines (u "]")) with 0.
  assert (H : newlines <$> List.map format_scene text_payload
              = scene_newlines <$> text_payload).
  { induction text_payload as [|slot text_payload IH]; [reflexivity|].
    simpl. rewrite format_scene_newlines. f_equal. exact IH. }
  rewrite H. lia.
Qed.

(** ** One file *)

Lemma extract_file_written filename w b w' :
  extract_file filename w = Some (b, w') →
  ∃ origin_json,
    document w filename = Some origin_json
    ∧ b = true
    ∧ w' = written w filename (text_artifact origin_json)
                   (select_artifact origin_json)
                   (file_message filename origin_json).
Proof.
  unfold extract_file, document, text_artifact, select_artifact, file_message, scenes_of.
  destruct (json_dir w !! filename) as [source|]; [|discriminate]. simpl.
  destruct (parsed source) as [origin_json|]; [|discriminate].
  intros H. exists origin_json. split; [reflexivity|]. revert H.
  assert (Hwrite : ∀ user_text user_select message,
    (write_extract_files filename user_text user_select;;
     log message;; mret true) w = Some (b, w') →
    b = true
    ∧ w' = written w filename (build_text_output user_text)
                   (json_dump user_select) message).
  { intros user_text user_select message.
    unfold write_extract_files, write_text_file, write_select_file, log,
      mbind, io_bind, mret, io_ret.
    destruct (utf8_encodable (build_text_output user_text)); [|discriminate].
    cbn [text_dir select_dir json_dir json_list last_extract_time now asctime stderr].
    destruct (utf8_encodable (json_dump user_select)); [|discriminate].
    intros [= <- <-]. split; reflexivity. }
  destruct (get_scenes origin_json) as [[| | | | |scenes|]|]; try apply Hwrite.
  simpl. unfold text_payload, select_payload.
  destruct (walk_scenes 0 scenes ([], [])) as [user_text user_select].
  apply Hwrite.
Qed.

(** X9. For a plain file name: when [extract_file] returns, it returns
    [True], the source file exists and holds valid JSON, and the world
    differs from the one before in three places only: the Text artifact
    and the Select artifact of that file name, which now exist, and one
    more line on standard error.  Sources, manifest, persisted
    timestamp and the artifacts of every other plain name are as
    before. *)
Theorem extract_file_frame (filename : str) (w : world) (b : bool) (w' : world) :
  plain_name filename = true →
  extract_file filename w = Some (b, w') →
  b = true
  ∧ is_Some (document w filename)
  ∧ json_dir w' = json_dir w ∧ json_list w' = json_list w
  ∧ last_extract_time w' = last_extract_time w
  ∧ is_Some (text_dir w' !! filename) ∧ is_Some (select_dir w' !! filename)
  ∧ (∀ other, plain_name other = true → other ≠ filename →
       text_dir w' !! other = text_dir w !! other
       ∧ select_dir w' !! other = select_dir w !! other)
  ∧ ∃ message, stderr w' = stderr w ++ [message].
Proof.
  intros _ H. apply extract_file_written in H as (origin_json & Hdoc & -> & ->).
  split; [reflexivity|]. split; [rewrite Hdoc; eauto|].
  unfold written. simpl. repeat split.
  - rewrite lookup_insert_eq. eauto.
  - rewrite lookup_insert_eq. eauto.
  - apply lookup_insert_ne. congruence.
  - apply lookup_insert_ne. congruence.
  - eauto.
Qed.

Lemma extract_file_frame_witness :
  true = true
  ∧ is_Some (document world_without_scenes (u "a.json"))
  ∧ json_dir world_without_scenes_after = json_dir world_without_scenes
  ∧ json_list world_without_scenes_after = json_list world_without_scenes
  ∧ last_extract_time world_without_scenes_after
    = last_extract_time world_without_scenes
  ∧ is_Some (text_dir world_without_scenes_after !! u "a.json")
  ∧ is_Some (select_dir world_without_scenes_after !! u "a.json")
  ∧ (∀ other, plain_name other = true → other ≠ u "a.json" →
       text_dir world_without_scenes_after !! other
       = text_dir world_without_scenes !! other
       ∧ select_dir world_without_scenes_after !! other
         = select_dir world_without_scenes !! other)
  ∧ ∃ message,
      stderr world_without_scenes_after = stderr world_without_scenes ++ [message].
Proof.
  apply (extract_file_frame (u "a.json") world_without_scenes true
           world_without_scenes_after).
  - vm_compute. reflexivity.
  - vm_compute. reflexivity.
Defined.

(** ** Writes that cannot fail *)

Lemma utf8_encodable_app a b :
  utf8_encodable (a ++ b) = utf8_encodable a && utf8_encodable b.
Proof. apply forallb_app. Qed.

Lemma utf8_encodable_small c s :
  (c < 0xD800)%N → utf8_encodable (c :: s) = utf8_encodable s.
Proof.
  intros Hc. unfold utf8_encodable. simpl.
  assert (H : (0xD800 <=? c)%N = false) by (apply N.leb_gt; exact Hc).
  rewrite H. reflexivity.
Qed.

Lemma utf8_encodable_u s : utf8_encodable (u s) = true.
Proof.
  unfold u. induction (list_ascii_of_string s) as [|a l IH]; [reflexivity|].
  simpl List.map. rewrite utf8_encodable_small; [exact IH|].
  pose proof (N_ascii_bounded a). lia.
Qed.

Lemma hex_digit_small n : (n < 32)%N → (hex_digit n < 0xD800)%N.
Proof. intros Hn. unfold hex_digit. destruct (n <? 10)%N; lia. Qed.

Lemma escape_char_encodable c :
  utf8_encodable [c] = true → utf8_encodable (escape_char c) = true.
Proof.
  intros Hc. unfold escape_char.
  repeat match goal with
         | |- context [(c =? ?k)%N] =>
             destruct (c =? k)%N; [reflexivity|]
         end.
  destruct (c <? 32)%N eqn:E; [|exact Hc].
  apply N.ltb_lt in E.
  rewrite utf8_encodable_app, utf8_encodable_u. rewrite ?andb_true_l, ?andb_true_r.
  rewrite !utf8_encodable_small; [reflexivity | |].
  - apply hex_digit_small. pose proof (N.mod_lt c 16). lia.
  - apply hex_digit_small.
    assert (c / 16 ≤ c)%N by (apply N.Div0.div_le_upper_bound; lia). lia.
Qed.

Lemma encode_basestring_encodable s :
  utf8_encodable s = true → utf8_encodable (encode_basestring s) = true.
Proof.
  intros Hs. unfold encode_basestring.
  rewrite !utf8_encodable_app. change (utf8_encodable [34%N]) with true.
  rewrite andb_true_l, andb_true_r.
  induction s as [|c s IH]; [reflexivity|].
  change (c :: s) with ([c] ++ s) in Hs.
  rewrite utf8_encodable_app in Hs. apply andb_true_iff in Hs as [Hc Hs].
  simpl flat_map. rewrite utf8_encodable_app, (escape_char_encodable c Hc).
  apply IH, Hs.
Qed.

Lemma json_dumps_encodable value :
  opt_encodable value = true → utf8_encodable (json_dumps value) = true.
Proof.
  destruct value as [s|]; [apply encode_basestring_encodable | reflexivity].
Qed.

Lemma str_join_encodable sep items :
  utf8_encodable sep = true →
  Forall (λ item, utf8_encodable item = true) items →
  utf8_encodable (str_join sep items) = true.
Proof.
  intros Hsep. induction 1 as [|item items Hitem Hitems IH]; [reflexivity|].
  destruct items as [|item' items]; [exact Hitem|].
  change (str_join sep (item :: item' :: items))
    with (item ++ sep ++ str_join sep (item' :: items)).
  rewrite !utf8_encodable_app, Hitem, Hsep, IH. reflexivity.
Qed.

Lemma formatted_items_encodable (scene_data : list (option str)) : ∀ f,
  (∀ index value, value ∈ scene_data → utf8_encodable (f index value) = true) →
  Forall (λ item, utf8_encodable item = true) (imap f scene_data).
Proof.
  induction scene_data as [|value scene_data IH]; intros f Hf; [constructor|].
  simpl. constructor.
  - apply Hf. left.
  - apply IH. intros index v Hv. apply Hf. right. exact Hv.
Qed.

Lemma format_scene_encodable slot :
  slot_encodable slot → utf8_encodable (format_scene slot) = true.
Proof.
  intros Hslot. destruct slot as [scene_data|]; [|reflexivity].
  unfold format_scene.
  rewrite !utf8_encodable_app, !utf8_encodable_u. rewrite ?andb_true_l, ?andb_true_r.
  rewrite str_join_encodable; [reflexivity | reflexivity |].
  apply formatted_items_encodable. intros index value Hin.
  pose proof (json_dumps_encodable value (Hslot scene_data eq_refl value Hin)) as H.
  destruct (Nat.even index); [exact H|].
  rewrite utf8_encodable_app, H. reflexivity.
Qed.

Lemma build_text_output_encodable text_payload :
  Forall slot_encodable text_payload →
  utf8_encodable (build_text_output text_payload) = true.
Proof.
  intros Hall. unfold build_text_output.
  rewrite !utf8_encodable_app, utf8_encodable_u. simpl.
  rewrite str_join_encodable; [reflexivity | reflexivity |].
  induction Hall as [|slot payload Hslot Hall IH]; [constructor|].
  simpl. constructor; [apply format_scene_encodable, Hslot | exact IH].
Qed.

Lemma newline_indent_encodable level : utf8_encodable (newline_indent level) = true.
Proof.
  unfold newline_indent. rewrite utf8_encodable_app.
  change (utf8_encodable nl) with true. rewrite andb_true_l.
  induction level as [|level IH]; [reflexivity|].
  change (concat (replicate (S level) (u "  ")))
    with (u "  " ++ concat (replicate level (u "  "))).
  rewrite utf8_encodable_app, utf8_encodable_u. exact IH.
Qed.

(** Induction on JSON values, with the elements of a list and the values
    of a dictionary as smaller values. *)
Lemma json_nested_ind (P : json → Prop) :
  P JNull → (∀ b, P (JBool b)) → (∀ n, P (JInt n)) → (∀ repr, P (JFloat repr)) →
  (∀ s, P (JStr s)) →
  (∀ l, Forall P l → P (JList l)) →
  (∀ d, Forall (λ kv, P kv.2) d → P (JDict d)) →
  ∀ v, P v.
Proof.
  intros Hnull Hbool Hint Hfloat Hstr Hlist Hdict.
  fix IH 1. intros [|b|n|repr|s|l|d].
  - exact Hnull.
  - apply Hbool.
  - apply Hint.
  - apply Hfloat.
  - apply Hstr.
  - apply Hlist. induction l as [|x l IHl]; constructor; [apply IH | exact IHl].
  - apply Hdict. induction d as [|[k x] d IHd]; constructor; [apply IH | exact IHd].
Qed.

Lemma json_encode_encodable v : ∀ level,
  json_encodable v = true → utf8_encodable (json_encode level v) = true.
Proof.
  induction v as [|b|n|repr|s|l IHl|d IHd] using json_nested_ind; intros level Hv.
  - reflexivity.
  - destruct b; reflexivity.
  - apply utf8_encodable_u.
  - exact Hv.
  - apply encode_basestring_encodable, Hv.
  - destruct l as [|x l]; [reflexivity|].
    cbn [json_encode].
    rewrite !utf8_encodable_app, !newline_indent_encodable.
    rewrite ?andb_true_l, ?andb_true_r.
    apply str_join_encodable.
    + rewrite utf8_encodable_app, newline_indent_encodable. reflexivity.
    + cbn [json_encodable] in Hv. rewrite forallb_forall in Hv.
      rewrite Forall_forall in IHl. apply Forall_forall. intros item Hitem.
      apply list_elem_of_In, in_map_iff in Hitem as (y & <- & Hy).
      apply IHl; [apply list_elem_of_In, Hy | apply Hv, Hy].
  - destruct d as [|kv d]; [reflexivity|].
    cbn [json_encode].
    rewrite !utf8_encodable_app, !newline_indent_encodable.
    rewrite ?andb_true_l, ?andb_true_r.
    apply str_join_encodable.
    + rewrite utf8_encodable_app, newline_indent_encodable. reflexivity.
    + cbn [json_encodable] in Hv. rewrite forallb_forall in Hv.
      rewrite Forall_forall in IHd. apply Forall_forall. intros item Hitem.
      apply list_elem_of_In, in_map_iff in Hitem as (y & <- & Hy).
      specialize (Hv y Hy). apply andb_true_iff in Hv as [Hk Hx].
      rewrite !utf8_encodable_app, (encode_basestring_encodable _ Hk).
      simpl. apply IHd; [apply list_elem_of_In, Hy | exact Hx].
Qed.

Lemma sublist_encodable (l1 l2 : str) :
  l1 `sublist_of` l2 → utf8_encodable l2 = true → utf8_encodable l1 = true.
Proof.
  unfold utf8_encodable.
  induction 1 as [|c l1 l2 _ IH|c l1 l2 _ IH]; simpl; [reflexivity| |];
    intros H; apply andb_true_iff in H as [Hc Hl].
  - rewrite Hc. apply IH, Hl.
  - apply IH, Hl.
Qed.

Lemma clean_text_markers_encodable text :
  utf8_encodable text = true →
  opt_encodable (clean_text_markers (Some text)) = true.
Proof.
  intros Ht. simpl.
  eapply sublist_encodable; [|exact Ht].
  etransitivity; apply replace_scan_sublist.
Qed.

Lemma fields_encodable fields i field :
  forallb json_encodable fields = true → fields !! i = Some field →
  json_encodable field = true.
Proof.
  rewrite forallb_forall. intros Hall Hi. apply Hall, list_elem_of_In.
  apply list_elem_of_lookup. eauto.
Qed.

Lemma pick_fallback_loop_encodable fields order :
  forallb json_encodable fields = true →
  opt_encodable (pick_fallback_loop fields order) = true.
Proof.
  intros Hall. induction order as [|index order IH]; [reflexivity|]. simpl.
  destruct (fields !! index) as [[| | | |s| |]|] eqn:E; try exact IH.
  destruct (non_empty s); [|exact IH].
  apply (fields_encodable fields index (JStr s) Hall E).
Qed.

Lemma legacy_fallback_encodable fields :
  forallb json_encodable fields = true →
  opt_encodable (legacy_fallback fields).1 = true
  ∧ opt_encodable (legacy_fallback fields).2 = true.
Proof.
  intros Hall. unfold legacy_fallback.
  pose proof (pick_fallback_loop_encodable fields [1; 0] Hall) as Hc.
  destruct (fields !! 2) as [[| | | |s2| |]|] eqn:E2;
    try (destruct (fields !! 1) as [[| | | |s1| |]|] eqn:E1);
    (split; [exact Hc|]); try reflexivity;
    apply clean_text_markers_encodable.
  all: first [ apply (fields_encodable fields 2 (JStr s2) Hall E2)
             | apply (fields_encodable fields 1 (JStr s1) Hall E1) ].
Qed.

Lemma selected_pair_encodable fields selected :
  forallb json_encodable fields = true → json_encodable selected = true →
  opt_encodable (selected_pair fields selected).1 = true
  ∧ opt_encodable (selected_pair fields selected).2 = true.
Proof.
  intros Hall Hsel. unfold selected_pair, selected_text. cbn [fst snd]. split.
  - pose proof (pick_fallback_loop_encodable fields [0; 1] Hall) as Hc.
    destruct selected as [| | | | |l|]; try exact Hc.
    destruct (py_index (JList l) 0) as [[| | | |[|c s]| |]|] eqn:E; try exact Hc.
    apply (fields_encodable l 0 (JStr (c :: s)) Hsel E).
  - destruct selected as [| | | | |l|]; try reflexivity.
    destruct (py_index (JList l) 1) as [[| | | |s| |]|] eqn:E; try reflexivity.
    apply clean_text_markers_encodable.
    apply (fields_encodable l 1 (JStr s) Hsel E).
Qed.

Lemma extract_character_and_text_encodable text_entry :
  json_encodable text_entry = true →
  opt_encodable (extract_character_and_text text_entry).1 = true
  ∧ opt_encodable (extract_character_and_text text_entry).2 = true.
Proof.
  intros Hentry.
  destruct text_entry as [| | | | |fields|]; try (split; reflexivity).
  rewrite extract_character_and_text_dispatch.
  cbn [json_encodable] in Hentry.
  pose proof (find_language_list_loop_spec fields) as Hfind.
  cbn [find_language_list].
  destruct (find_language_list_loop fields) as [language_list|];
    [|apply legacy_fallback_encodable, Hentry].
  destruct (pick_language_entry language_list) as [selected|] eqn:Hpick;
    [|apply legacy_fallback_encodable, Hentry].
  apply selected_pair_encodable; [exact Hentry|].
  destruct Hfind as (pre & post & -> & _ & _).
  rewrite forallb_app in Hentry. apply andb_true_iff in Hentry as [_ Hentry].
  simpl in Hentry. apply andb_true_iff in Hentry as [Hlist _].
  rewrite forallb_forall in Hlist.
  apply Hlist, list_elem_of_In. eapply pick_language_entry_elem, Hpick.
Qed.

Lemma flat_lines_encodable texts value :
  forallb json_encodable texts = true → value ∈ flat_lines texts →
  opt_encodable value = true.
Proof.
  induction texts as [|text_entry texts IH]; intros Hall Hin.
  - apply elem_of_nil in Hin as [].
  - simpl in Hall. apply andb_true_iff in Hall as [Hentry Hall].
    unfold flat_lines in Hin. simpl flat_map in Hin. fold (flat_lines texts) in Hin.
    pose proof (extract_character_and_text_encodable text_entry Hentry) as [Hc Ht].
    destruct (extract_character_and_text text_entry) as [character text].
    simpl in Hin. rewrite !elem_of_cons in Hin.
    destruct Hin as [-> | [-> | Hin]]; [exact Hc | exact Ht | apply IH; assumption].
Qed.

Lemma dict_get_encodable d key v :
  json_encodable (JDict d) = true → dict_get d key = Some v →
  json_encodable v = true.
Proof.
  cbn [json_encodable]. induction d as [|[k x] d IH]; simpl; [discriminate|].
  intros H. apply andb_true_iff in H as [Hkx Hd].
  apply andb_true_iff in Hkx as [_ Hx].
  destruct (bool_decide (k = key)); [intros [= <-]; exact Hx | apply IH, Hd].
Qed.

Lemma scene_texts_encodable scenes i texts :
  forallb json_encodable scenes = true →
  scenes !! i ≫= scene_texts = Some texts →
  forallb json_encodable texts = true.
Proof.
  intros Hall. destruct (scenes !! i) as [scene|] eqn:E; [|discriminate]. simpl.
  pose proof (fields_encodable scenes i scene Hall E) as Hscene.
  destruct scene as [| | | | | |d]; try discriminate. simpl.
  destruct (dict_get d (u "texts")) as [[| | | | |l|]|] eqn:Ed; try discriminate.
  intros [= <-]. apply (dict_get_encodable d _ _ Hscene Ed).
Qed.

Lemma text_payload_encodable scenes :
  forallb json_encodable scenes = true → Forall slot_encodable (text_payload scenes).
Proof.
  intros Hall. apply Forall_lookup. intros i slot Hi scene_data -> value Hvalue.
  assert (Hlt : i < length (text_payload scenes)) by (eapply lookup_lt_Some, Hi).
  rewrite (text_payload_slot scenes i Hlt) in Hi.
  destruct (scenes !! i ≫= scene_texts) as [texts|] eqn:E; [|discriminate].
  injection Hi as <-.
  eapply flat_lines_encodable; [|exact Hvalue].
  eapply scene_texts_encodable; eassumption.
Qed.

Lemma select_payload_slot scenes i :
  i < length (select_payload scenes) →
  select_payload scenes !! i = Some (default JNull (scenes !! i ≫= scene_selects)).
Proof.
  intros Hi.
  pose proof (aligned_fill_0 JNull (scene_selects <$> scenes)) as (_ & Hslots & _).
  rewrite <- select_payload_fill in Hslots. rewrite (Hslots i Hi).
  rewrite lookup_fmap_join. reflexivity.
Qed.

Lemma select_payload_encodable scenes :
  forallb json_encodable scenes = true →
  json_encodable (JList (select_payload scenes)) = true.
Proof.
  intros Hall. cbn [json_encodable]. apply forallb_forall. intros v Hv.
  apply list_elem_of_In, list_elem_of_lookup in Hv as [i Hi].
  assert (Hlt : i < length (select_payload scenes)) by (eapply lookup_lt_Some, Hi).
  rewrite (select_payload_slot scenes i Hlt) in Hi. injection Hi as <-.
  destruct (scenes !! i) as [scene|] eqn:E; [|reflexivity]. simpl.
  pose proof (fields_encodable scenes i scene Hall E) as Hscene.
  destruct scene as [| | | | | |d]; try reflexivity. simpl.
  destruct (dict_get d (u "selects")) as [v|] eqn:Ed; [|reflexivity].
  apply (dict_get_encodable d _ _ Hscene Ed).
Qed.

Lemma artifacts_encodable origin_json :
  json_encodable origin_json = true →
  utf8_encodable (text_artifact origin_json) = true
  ∧ utf8_encodable (select_artifact origin_json) = true.
Proof.
  intros Hdoc. unfold text_artifact, select_artifact, scenes_of, get_scenes.
  destruct origin_json as [| | | | | |d]; try (split; reflexivity).
  destruct (dict_get d (u "scenes")) as [[| | | | |scenes|]|] eqn:Ed;
    try (split; reflexivity).
  pose proof (dict_get_encodable d _ _ Hdoc Ed) as Hscenes.
  cbn [json_encodable] in Hscenes. simpl. split.
  - apply build_text_output_encodable, text_payload_encodable, Hscenes.
  - apply json_encode_encodable, select_payload_encodable, Hscenes.
Qed.

Lemma extract_file_document filename w origin_json :
  document w filename = Some origin_json →
  utf8_encodable (text_artifact origin_json) = true →
  utf8_encodable (select_artifact origin_json) = true →
  extract_file filename w
  = Some (true, written w filename (text_artifact origin_json)
                        (select_artifact origin_json)
                        (file_message filename origin_json)).
Proof.
  unfold document, extract_file, text_artifact, select_artifact, file_message, scenes_of.
  destruct (json_dir w !! filename) as [source|]; [|discriminate]. simpl.
  intros ->.
  assert (Hwrite : ∀ user_text user_select message,
    utf8_encodable (build_text_output user_text) = true →
    utf8_encodable (json_dump user_select) = true →
    (write_extract_files filename user_text user_select;;
     log message;; mret true) w
    = Some (true, written w filename (build_text_output user_text)
                          (json_dump user_select) message)).
  { intros user_text user_select message Ht Hs.
    unfold write_extract_files, write_text_file, write_select_file, log,
      mbind, io_bind, mret, io_ret.
    rewrite Ht.
    cbn [text_dir select_dir json_dir json_list last_extract_time now asctime stderr].
    rewrite Hs. reflexivity. }
  destruct (get_scenes origin_json) as [[| | | | |scenes|]|]; try apply Hwrite.
  simpl. unfold text_payload, select_payload.
  destruct (walk_scenes 0 scenes ([], [])) as [user_text user_select].
  apply Hwrite.
Qed.

(** X10. For a plain file name, no shape of document makes
    [extract_file] raise: when the source file exists, holds valid JSON
    and has no surrogate code point in any of its strings, extraction
    and formatting go through for every document, and [extract_file]
    returns [True] after writing the two artifacts of the document and
    logging its line.  (A write the file system refuses, for want of
    space or permission, is outside of the world modelled.) *)
Theorem extract_file_succeeds (filename : str) (w : world) (origin_json : json) :
  plain_name filename = true →
  document w filename = Some origin_json →
  json_encodable origin_json = true →
  extract_file filename w
  = Some (true, written w filename (text_artifact origin_json)
                        (select_artifact origin_json)
                        (file_message filename origin_json)).
Proof.
  intros _ Hdoc Henc. destruct (artifacts_encodable origin_json Henc) as [Ht Hs].
  apply extract_file_document; assumption.
Qed.

Lemma extract_file_succeeds_witness :
  extract_file (u "a.json") settled_world
  = Some (true, written settled_world (u "a.json")
                        (text_artifact settled_document)
                        (select_artifact settled_document)
                        (file_message (u "a.json") settled_document)).
Proof.
  apply (extract_file_succeeds (u "a.json") settled_world settled_document).
  - vm_compute. reflexivity.
  - vm_compute. reflexivity.
  - vm_compute. reflexivity.
Defined.

(** ** A whole run *)

Lemma document_same_inputs w w' name :
  same_inputs w w' → document w' name = document w name.
Proof. intros (H & _). unfold document. rewrite H. reflexivity. Qed.

Lemma non_empty_elem {A} (l : list A) x : x ∈ l → non_empty l = true.
Proof. destruct l; [intros H; apply elem_of_nil in H as [] | reflexivity]. Qed.

(** What the loop of [main] has done when it returns. *)
Lemma extract_loop_run modified_files : ∀ new_extract w b w',
  extract_loop modified_files new_extract w = Some (b, w') →
  stderr w' = stderr w ++ (file_log w <$> modified_files)
  ∧ (∀ name, name ∈ modified_files →
       is_Some (document w name)
       ∧ text_dir w' !! name = text_artifact <$> document w name
       ∧ select_dir w' !! name = select_artifact <$> document w name)
  ∧ (∀ name, name ∉ modified_files →
       text_dir w' !! name = text_dir w !! name
       ∧ select_dir w' !! name = select_dir w !! name).
Proof.
  induction modified_files as [|filename modified_files IH]; intros new_extract w b w'.
  - intros [= <- <-]. simpl. rewrite app_nil_r. split; [reflexivity|]. split.
    + intros name Hin. apply elem_of_nil in Hin as [].
    + intros name _. split; reflexivity.
  - cbn [extract_loop]. unfold mbind at 1, io_bind at 1.
    destruct (extract_file filename w) as [[extracted w1]|] eqn:E; [|discriminate].
    pose proof (extract_file_result _ _ _ _ E) as [_ Hsame].
    apply extract_file_written in E as (origin_json & Hdoc & -> & ->).
    intros Hloop. apply IH in Hloop as (Hlog & Hin & Hout).
    assert (Hdocs : ∀ name,
      document (written w filename (text_artifact origin_json)
                        (select_artifact origin_json)
                        (file_message filename origin_json)) name
      = document w name).
    { intros name. apply document_same_inputs, Hsame. }
    assert (Hlogs : ∀ names : list str,
      file_log (written w filename (text_artifact origin_json)
                        (select_artifact origin_json)
                        (file_message filename origin_json)) <$> names
      = file_log w <$> names).
    { intros names. apply list_fmap_ext. intros _ name _.
      unfold file_log. rewrite Hdocs. reflexivity. }
    split; [|split].
    + rewrite Hlog, Hlogs. unfold written at 1. cbn [stderr].
      rewrite <- List.app_assoc, fmap_cons. f_equal. simpl. f_equal.
      unfold file_log. rewrite Hdoc. reflexivity.
    + intros name Hname.
      destruct (decide (name ∈ modified_files)) as [Hrest|Hrest].
      * specialize (Hin name Hrest). rewrite Hdocs in Hin. exact Hin.
      * apply elem_of_cons in Hname as [-> | Hname]; [|contradiction].
        specialize (Hout filename Hrest). destruct Hout as [Ht Hs].
        rewrite Ht, Hs, Hdoc. unfold written. cbn [text_dir select_dir].
        rewrite !lookup_insert_eq. split; [eauto|]. split; reflexivity.
    + intros name Hname. rewrite not_elem_of_cons in Hname. destruct Hname as [Hne Hrest].
      specialize (Hout name Hrest). destruct Hout as [Ht Hs].
      rewrite Ht, Hs. unfold written. cbn [text_dir select_dir].
      rewrite !lookup_insert_ne by congruence. split; reflexivity.
Qed.

(** X11. For a manifest of plain file names: when [main] returns, with
    [files] the modified files of the manifest in order: the exit code
    is 0; sources and manifest are as before; standard error has one more line per file of [files], in
    that order, and then one summary line; the persisted timestamp
    carries the time of this run when [files] is not empty and is left
    as it was when [files] is empty. *)
Theorem main_outcome (w : world) (lines : list str) (code : Z) (w' : world) :
  json_list w = Some lines →
  plain_manifest lines = true →
  main w = Some (code, w') →
  code = 0%Z
  ∧ json_dir w' = json_dir w ∧ json_list w' = json_list w
  ∧ stderr w'
    = stderr w ++ (file_log w <$> modified_files_of w lines)
      ++ [if non_empty (modified_files_of w lines)
          then u "Extract time updated."
          else u "No file updated, have a good day!"]
  ∧ last_extract_time w'
    = if non_empty (modified_files_of w lines)
      then Some (now w, asctime w)
      else last_extract_time w.
Proof.
  intros Hlist _ Hmain. rewrite (main_unfold w lines Hlist) in Hmain.
  fold (modified_files_of w lines) in Hmain.
  destruct (extract_loop (modified_files_of w lines) false w)
    as [[new_extract w1]|] eqn:Hloop; [|discriminate].
  pose proof (extract_loop_result _ _ _ _ _ Hloop) as (-> & (H1 & H2 & H3 & H4 & H5) & _).
  apply extract_loop_run in Hloop as (Hlog & _ & _).
  simpl orb in Hmain.
  destruct (non_empty (modified_files_of w lines)); simpl in Hmain;
    injection Hmain as <- <-; simpl;
    rewrite ?H1, ?H2, ?H3, ?H4, ?H5, Hlog, <- List.app_assoc; repeat split.
Qed.

Lemma main_outcome_witness :
  0%Z = 0%Z
  ∧ json_dir settled_world_after = json_dir settled_world
  ∧ json_list settled_world_after = json_list settled_world
  ∧ stderr settled_world_after
    = stderr settled_world
      ++ (file_log settled_world <$> modified_files_of settled_world [u "a.json"])
      ++ [if non_empty (modified_files_of settled_world [u "a.json"])
          then u "Extract time updated."
          else u "No file updated, have a good day!"]
  ∧ last_extract_time settled_world_after
    = if non_empty (modified_files_of settled_world [u "a.json"])
      then Some (now settled_world, asctime settled_world)
      else last_extract_time settled_world.
Proof.
  apply (main_outcome settled_world [u "a.json"] 0 settled_world_after).
  - reflexivity.
  - vm_compute. reflexivity.
  - vm_compute. reflexivity.
Defined.

(** X12. For a manifest of plain file names: when [main] returns, each
    modified file of the manifest has its two artifacts, and they are
    the artifacts of the document in its source file; the artifacts of
    every other plain name are as they were before the run. *)
Theorem main_artifacts (w : world) (lines : list str) (code : Z) (w' : world) :
  json_list w = Some lines →
  plain_manifest lines = true →
  main w = Some (code, w') →
  (∀ name, name ∈ modified_files_of w lines →
     is_Some (document w name)
     ∧ text_dir w' !! name = text_artifact <$> document w name
     ∧ select_dir w' !! name = select_artifact <$> document w name)
  ∧ (∀ name, plain_name name = true → name ∉ modified_files_of w lines →
       text_dir w' !! name = text_dir w !! name
       ∧ select_dir w' !! name = select_dir w !! name).
Proof.
  intros Hlist _ Hmain. rewrite (main_unfold w lines Hlist) in Hmain.
  fold (modified_files_of w lines) in Hmain.
  destruct (extract_loop (modified_files_of w lines) false w)
    as [[new_extract w1]|] eqn:Hloop; [|discriminate].
  apply extract_loop_run in Hloop as (_ & Hin & Hout).
  assert (Hdirs : text_dir w' = text_dir w1 ∧ select_dir w' = select_dir w1).
  { destruct new_extract; simpl in Hmain; injection Hmain as <- <-; split; reflexivity. }
  destruct Hdirs as [-> ->]. split; [exact Hin|].
  intros name _ Hname. apply Hout, Hname.
Qed.

Lemma main_artifacts_witness :
  (∀ name, name ∈ modified_files_of settled_world [u "a.json"] →
     is_Some (document settled_world name)
     ∧ text_dir settled_world_after !! name
       = text_artifact <$> document settled_world name
     ∧ select_dir settled_world_after !! name
       = select_artifact <$> document settled_world name)
  ∧ (∀ name, plain_name name = true →
       name ∉ modified_files_of settled_world [u "a.json"] →
       text_dir settled_world_after !! name = text_dir settled_world !! name
       ∧ select_dir settled_world_after !! name = select_dir settled_world !! name).
Proof.
  apply (main_artifacts settled_world [u "a.json"] 0 settled_world_after).
  - reflexivity.
  - vm_compute. reflexivity.
  - vm_compute. reflexivity.
Defined.

Lemma extract_loop_completes modified_files : ∀ new_extract w,
  (∀ name, name ∈ modified_files →
     ∃ origin_json, document w name = Some origin_json
                    ∧ json_encodable origin_json = true) →
  ∃ b w', extract_loop modified_files new_extract w = Some (b, w').
Proof.
  induction modified_files as [|filename modified_files IH]; intros new_extract w Hdocs.
  - eexists _, _. reflexivity.
  - destruct (Hdocs filename) as (origin_json & Hdoc & Henc); [left|].
    cbn [extract_loop]. unfold mbind at 1, io_bind at 1.
    destruct (artifacts_encodable origin_json Henc) as [Htext Hselect].
    pose proof (extract_file_document filename w origin_json Hdoc Htext Hselect) as E.
    rewrite E. apply IH. intros name Hname.
    destruct (Hdocs name) as (doc & Hd & He); [right; exact Hname|].
    exists doc. split; [|exact He].
    rewrite <- Hd. apply document_same_inputs.
    eapply extract_file_result, E.
Qed.

(** X13. No content of the source files other than invalid JSON or a
    surrogate code point makes [main] raise: when the manifest can be
    read and names plain files only, and every modified file of the
    manifest holds valid JSON without a surrogate code point in its
    strings, [main] runs to its end with exit code 0; files that are
    not modified are not read and may hold anything.  (A write the file
    system refuses, for want of space or permission, is outside of the
    world modelled.) *)
Theorem main_completes (w : world) (lines : list str) :
  json_list w = Some lines →
  plain_manifest lines = true →
  (∀ name, name ∈ modified_files_of w lines →
     ∃ origin_json, document w name = Some origin_json
                    ∧ json_encodable origin_json = true) →
  ∃ w', main w = Some (0%Z, w').
Proof.
  intros Hlist _ Hdocs. rewrite (main_unfold w lines Hlist).
  fold (modified_files_of w lines).
  destruct (extract_loop_completes _ false w Hdocs) as (b & w1 & ->).
  destruct b; eexists; reflexivity.
Qed.

Lemma main_completes_witness : ∃ w', main settled_world = Some (0%Z, w').
Proof.
  apply (main_completes settled_world [u "a.json"]).
  - reflexivity.
  - vm_compute. reflexivity.
  - intros name Hname. vm_compute in Hname.
    apply elem_of_cons in Hname as [-> | Hname];
      [|apply elem_of_nil in Hname as []].
    exists settled_document. split; vm_compute; reflexivity.
Defined.




(** ** The Text artifact determines the payload *)

Lemma unhex_hex_digit n : (n < 16)%N → unhex (hex_digit n) = n.
Proof.
  intros Hn. unfold unhex, hex_digit.
  destruct (n <? 10)%N eqn:E.
  - apply N.ltb_lt in E.
    assert (H : (48 + n <? 58)%N = true) by (apply N.ltb_lt; lia).
    rewrite H. lia.
  - apply N.ltb_ge in E.
    assert (H : (87 + n <? 58)%N = false) by (apply N.ltb_ge; lia).
    rewrite H. lia.
Qed.

Lemma unescape_head_escape_char c r :
  unescape_head (escape_char c ++ r) = Some (c, r).
Proof.
  unfold escape_char.
  destruct (c =? 92)%N eqn:E92; [apply N.eqb_eq in E92 as ->; reflexivity|].
  destruct (c =? 34)%N eqn:E34; [apply N.eqb_eq in E34 as ->; reflexivity|].
  destruct (c =? 8)%N eqn:E8; [apply N.eqb_eq in E8 as ->; reflexivity|].
  destruct (c =? 12)%N eqn:E12; [apply N.eqb_eq in E12 as ->; reflexivity|].
  destruct (c =? 10)%N eqn:E10; [apply N.eqb_eq in E10 as ->; reflexivity|].
  destruct (c =? 13)%N eqn:E13; [apply N.eqb_eq in E13 as ->; reflexivity|].
  destruct (c =? 9)%N eqn:E9; [apply N.eqb_eq in E9 as ->; reflexivity|].
  destruct (c <? 32)%N eqn:E32.
  - apply N.ltb_lt in E32.
    change ((u "\u00" ++ [hex_digit (c / 16); hex_digit (c mod 16)]) ++ r)
      with (92 :: 117 :: 48 :: 48 :: hex_digit (c / 16) :: hex_digit (c mod 16) :: r)%N.
    cbn [unescape_head]. simpl N.eqb.
    rewrite !unhex_hex_digit.
    + f_equal. f_equal. pose proof (N.div_mod c 16). lia.
    + apply N.mod_lt. lia.
    + apply N.Div0.div_lt_upper_bound. lia.
  - simpl. rewrite E92. reflexivity.
Qed.

Lemma escaped_inj s1 : ∀ s2,
  flat_map escape_char s1 = flat_map escape_char s2 → s1 = s2.
Proof.
  induction s1 as [|c1 s1 IH]; intros [|c2 s2] H.
  - reflexivity.
  - apply (f_equal unescape_head) in H. simpl flat_map in H.
    rewrite unescape_head_escape_char in H. discriminate H.
  - apply (f_equal unescape_head) in H. simpl flat_map in H.
    rewrite unescape_head_escape_char in H. discriminate H.
  - apply (f_equal unescape_head) in H. simpl flat_map in H.
    rewrite !unescape_head_escape_char in H. injection H as -> H.
    f_equal. apply IH, H.
Qed.

Lemma json_dumps_inj v1 v2 : json_dumps v1 = json_dumps v2 → v1 = v2.
Proof.
  destruct v1 as [s1|], v2 as [s2|]; try reflexivity; try discriminate.
  unfold json_dumps, encode_basestring. intros H.
  apply app_inv_head, app_inv_tail in H. f_equal. apply escaped_inj, H.
Qed.

Lemma json_dumps_non_empty value : json_dumps value ≠ [].
Proof. destruct value; discriminate. Qed.

Lemma newlines_zero_cons c s :
  newlines (c :: s) = 0 → c ≠ 10%N ∧ newlines s = 0.
Proof.
  rewrite newlines_cons. destruct (10 =? c)%N eqn:E; [discriminate|].
  apply N.eqb_neq in E. intros H. split; [congruence | exact H].
Qed.

Lemma split_at_newline a : ∀ a' b b',
  newlines a = 0 → newlines a' = 0 →
  a ++ 10%N :: b = a' ++ 10%N :: b' → a = a' ∧ b = b'.
Proof.
  induction a as [|c a IH]; intros [|c' a'] b b' Ha Ha' H.
  - injection H as ->. split; reflexivity.
  - apply newlines_zero_cons in Ha' as [Hc' _]. injection H as H _. congruence.
  - apply newlines_zero_cons in Ha as [Hc _]. injection H as H _. congruence.
  - apply newlines_zero_cons in Ha as [_ Ha].
    apply newlines_zero_cons in Ha' as [_ Ha'].
    injection H as -> H. destruct (IH a' b b' Ha Ha' H) as [-> ->].
    split; reflexivity.
Qed.

Lemma str_join_join_tail sep (item : str) items tail_end :
  str_join sep (item :: items) ++ tail_end = item ++ join_tail sep tail_end items.
Proof.
  unfold join_tail. revert item.
  induction items as [|item' items IH]; intros item.
  - reflexivity.
  - change (str_join sep (item :: item' :: items))
      with (item ++ sep ++ str_join sep (item' :: items)).
    rewrite <- !List.app_assoc, IH. simpl flat_map.
    rewrite <- !List.app_assoc. reflexivity.
Qed.

Lemma join_tail_cons sep tail_end (item : str) items :
  join_tail sep tail_end (item :: items)
  = sep ++ item ++ join_tail sep tail_end items.
Proof.
  unfold join_tail. simpl flat_map. rewrite <- !List.app_assoc. reflexivity.
Qed.

Lemma join_tail_nil sep tail_end : join_tail sep tail_end [] = tail_end.
Proof. reflexivity. Qed.

Lemma item_separator_eq : item_separator = [44; 10; 32; 32; 32; 32]%N.
Proof. reflexivity. Qed.

Lemma scene_end_eq : scene_end = [10; 32; 32; 93]%N.
Proof. reflexivity. Qed.

(** An item and what follows it in a scene block determine each
    other's extent: the item ends where the first newline says. *)
Lemma item_tail_split (x1 x2 : str) l1 l2 r1 r2 :
  newlines x1 = 0 → newlines x2 = 0 →
  x1 ++ join_tail item_separator (scene_end ++ r1) l1
  = x2 ++ join_tail item_separator (scene_end ++ r2) l2 →
  x1 = x2
  ∧ join_tail item_separator (scene_end ++ r1) l1
    = join_tail item_separator (scene_end ++ r2) l2.
Proof.
  intros H1 H2 H.
  assert (Hcomma : ∀ x, newlines x = 0 → newlines (x ++ [44%N]) = 0).
  { intros x Hx. rewrite newlines_app, Hx. reflexivity. }
  assert (Hsep : ∀ (x y : str) t,
    x ++ item_separator ++ y ++ t
    = (x ++ [44%N]) ++ 10%N :: [32; 32; 32; 32]%N ++ y ++ t).
  { intros x y t. rewrite item_separator_eq, <- List.app_assoc. reflexivity. }
  assert (Hend : ∀ (x r : str),
    x ++ scene_end ++ r = x ++ 10%N :: [32; 32; 93]%N ++ r).
  { intros x r. rewrite scene_end_eq. reflexivity. }
  destruct l1 as [|y1 l1], l2 as [|y2 l2];
    rewrite ?join_tail_cons, ?join_tail_nil in *.
  - rewrite !Hend in H.
    destruct (split_at_newline _ _ _ _ H1 H2 H) as [-> Hr].
    apply app_inv_head in Hr. subst r2. split; reflexivity.
  - exfalso. rewrite Hend, Hsep in H.
    destruct (split_at_newline _ _ _ _ H1 (Hcomma x2 H2) H) as [_ Hrest].
    discriminate Hrest.
  - exfalso. rewrite Hend, Hsep in H.
    destruct (split_at_newline _ _ _ _ (Hcomma x1 H1) H2 H) as [_ Hrest].
    discriminate Hrest.
  - rewrite !Hsep in H.
    destruct (split_at_newline _ _ _ _ (Hcomma x1 H1) (Hcomma x2 H2) H) as [Hx Hrest].
    apply app_inv_tail in Hx. subst x2.
    apply app_inv_head in Hrest. rewrite Hrest. split; reflexivity.
Qed.

Lemma tails_inj l1 : ∀ l2 r1 r2,
  Forall (λ item, newlines item = 0) l1 →
  Forall (λ item, newlines item = 0) l2 →
  join_tail item_separator (scene_end ++ r1) l1
  = join_tail item_separator (scene_end ++ r2) l2 →
  l1 = l2 ∧ r1 = r2.
Proof.
  induction l1 as [|y1 l1 IH]; intros [|y2 l2] r1 r2 Hl1 Hl2 H;
    rewrite ?join_tail_cons, ?join_tail_nil in H.
  - apply app_inv_head in H. split; [reflexivity | exact H].
  - rewrite scene_end_eq, item_separator_eq in H. discriminate H.
  - rewrite scene_end_eq, item_separator_eq in H. discriminate H.
  - apply app_inv_head in H.
    apply Forall_cons in Hl1 as [Hy1 Hl1]. apply Forall_cons in Hl2 as [Hy2 Hl2].
    destruct (item_tail_split _ _ _ _ _ _ Hy1 Hy2 H) as [-> Ht].
    destruct (IH _ _ _ Hl1 Hl2 Ht) as [-> ->]. split; reflexivity.
Qed.

Lemma items_inj items1 items2 r1 r2 :
  Forall (λ item, newlines item = 0 ∧ item ≠ []) items1 →
  Forall (λ item, newlines item = 0 ∧ item ≠ []) items2 →
  str_join item_separator items1 ++ scene_end ++ r1
  = str_join item_separator items2 ++ scene_end ++ r2 →
  items1 = items2 ∧ r1 = r2.
Proof.
  intros H1 H2 H.
  assert (Hhead : ∀ (x : str) t r,
    newlines x = 0 → x ≠ [] → scene_end ++ r ≠ x ++ t).
  { intros [|c x] t r Hx Hne; [contradiction|].
    apply newlines_zero_cons in Hx as [Hc _].
    rewrite scene_end_eq. intros [= E _]. congruence. }
  assert (Hnl : ∀ l, Forall (λ item : str, newlines item = 0 ∧ item ≠ []) l →
                     Forall (λ item, newlines item = 0) l).
  { intros l Hl. eapply Forall_impl; [exact Hl|]. intros x [Hx _]. exact Hx. }
  destruct items1 as [|x1 l1], items2 as [|x2 l2].
  - cbn [str_join app] in H. apply app_inv_head in H.
    split; [reflexivity | exact H].
  - exfalso. apply Forall_cons in H2 as [[Hx Hne] _].
    rewrite str_join_join_tail in H. cbn [str_join app] in H.
    apply (Hhead x2 _ r1 Hx Hne H).
  - exfalso. apply Forall_cons in H1 as [[Hx Hne] _].
    rewrite str_join_join_tail in H. cbn [str_join app] in H. symmetry in H.
    apply (Hhead x1 _ r2 Hx Hne H).
  - rewrite !str_join_join_tail in H.
    apply Forall_cons in H1 as [[Hx1 _] H1]. apply Forall_cons in H2 as [[Hx2 _] H2].
    destruct (item_tail_split _ _ _ _ _ _ Hx1 Hx2 H) as [-> Ht].
    destruct (tails_inj _ _ _ _ (Hnl _ H1) (Hnl _ H2) Ht) as [-> ->].
    split; reflexivity.
Qed.

Lemma formatted_item_ok index value :
  newlines (formatted_item index value) = 0 ∧ formatted_item index value ≠ [].
Proof.
  unfold formatted_item. destruct (Nat.even index).
  - split; [apply json_dumps_newlines | apply json_dumps_non_empty].
  - split; [rewrite newlines_app, json_dumps_newlines; reflexivity | discriminate].
Qed.

Lemma formatted_item_inj index v1 v2 :
  formatted_item index v1 = formatted_item index v2 → v1 = v2.
Proof.
  unfold formatted_item. destruct (Nat.even index); intros H.
  - apply json_dumps_inj, H.
  - apply app_inv_head in H. apply json_dumps_inj, H.
Qed.

Lemma imap_ok {A} (P : str → Prop) (l : list A) : ∀ f : nat → A → str,
  (∀ i x, P (f i x)) → Forall P (imap f l).
Proof.
  induction l as [|x l IH]; intros f Hf; [constructor|].
  simpl. constructor; [apply Hf | apply IH; intros i y; apply Hf].
Qed.

Lemma imap_inj {A} (l1 : list A) : ∀ l2 (f : nat → A → str),
  (∀ i x y, f i x = f i y → x = y) → imap f l1 = imap f l2 → l1 = l2.
Proof.
  induction l1 as [|x l1 IH]; intros [|y l2] f Hf H; try discriminate H.
  - reflexivity.
  - simpl in H. injection H as Hx H. f_equal; [eapply Hf, Hx|].
    apply (IH l2 (f ∘ S)); [|exact H]. intros i a b. apply Hf.
Qed.

Lemma format_scene_some scene_data :
  format_scene (Some scene_data)
  = [10; 32; 32; 91; 10; 32; 32; 32; 32]%N
      ++ str_join item_separator (imap formatted_item scene_data) ++ scene_end.
Proof. reflexivity. Qed.

(** A scene block ends where its layout says: the block and what
    follows it can be told apart. *)
Lemma format_scene_inj slot1 slot2 r1 r2 :
  format_scene slot1 ++ r1 = format_scene slot2 ++ r2 → slot1 = slot2 ∧ r1 = r2.
Proof.
  destruct slot1 as [d1|], slot2 as [d2|]; rewrite ?format_scene_some; intros H.
  - rewrite <- !List.app_assoc in H. apply app_inv_head in H.
    apply items_inj in H as [Hitems ->];
      try (apply imap_ok; intros i x; apply formatted_item_ok).
    split; [|reflexivity]. f_equal.
    eapply imap_inj; [|exact Hitems]. intros i x y. apply formatted_item_inj.
  - discriminate H.
  - discriminate H.
  - apply app_inv_head in H. split; [reflexivity | exact H].
Qed.

Lemma scenes_tail_inj p1 : ∀ p2,
  join_tail (u ",") (nl ++ u "]") (List.map format_scene p1)
  = join_tail (u ",") (nl ++ u "]") (List.map format_scene p2) →
  p1 = p2.
Proof.
  induction p1 as [|s1 p1 IH]; intros [|s2 p2] H; simpl List.map in H;
    rewrite ?join_tail_cons, ?join_tail_nil in H; try discriminate H.
  - reflexivity.
  - apply app_inv_head in H.
    apply format_scene_inj in H as [-> H]. f_equal. apply IH, H.
Qed.

(** X15. The Text artifact determines the payload it was built from:
    two payloads with the same artifact are the same payload, slot by
    slot, null for null, character for character. *)
Theorem build_text_output_inj (payload1 payload2 : list (option (list (option str)))) :
  build_text_output payload1 = build_text_output payload2 → payload1 = payload2.
Proof.
  unfold build_text_output. intros H. apply app_inv_head in H.
  destruct payload1 as [|s1 p1], payload2 as [|s2 p2]; simpl List.map in H.
  - reflexivity.
  - exfalso. rewrite str_join_join_tail in H. destruct s2; discriminate H.
  - exfalso. rewrite str_join_join_tail in H. destruct s1; discriminate H.
  - rewrite !str_join_join_tail in H.
    apply format_scene_inj in H as [-> H]. f_equal. apply scenes_tail_inj, H.
Qed.

Lemma build_text_output_inj_witness :
  [None; Some [Some (u "Amy"); Some (u "Hi")]]
  = [None; Some [Some (u "Amy"); Some (u "Hi")]].
Proof.
  apply (build_text_output_inj [None; Some [Some (u "Amy"); Some (u "Hi")]]
           [None; Some [Some (u "Amy"); Some (u "Hi")]]).
  reflexivity.
Defined.

(** ** Empty artifacts *)

Lemma text_payload_empty scenes :
  text_payload scenes = [] ↔ ∀ i, scenes !! i ≫= scene_texts = None.
Proof.
  pose proof (aligned_fill_0 None (text_slot <$> scenes)) as (_ & _ & Hgap & Hlast).
  rewrite <- text_payload_fill in Hgap, Hlast.
  assert (Heq : ∀ i, (text_slot <$> scenes) !! i ≫= id = None
                     ↔ scenes !! i ≫= scene_texts = None).
  { intros i. rewrite lookup_fmap_join. unfold text_slot.
    destruct (scenes !! i) as [scene|]; simpl; [|tauto].
    destruct (scene_texts scene); simpl; split; congruence. }
  split.
  - intros Hnil i. apply Heq, Hgap. rewrite Hnil. simpl. lia.
  - intros Hnone. destruct Hlast as [Hnil | [slot Hslot]]; [exact Hnil|].
    specialize (Hnone (length (text_payload scenes) - 1)).
    apply Heq in Hnone. rewrite Hnone in Hslot. discriminate Hslot.
Qed.

Lemma select_payload_empty scenes :
  select_payload scenes = [] ↔ ∀ i, scenes !! i ≫= scene_selects = None.
Proof.
  pose proof (aligned_fill_0 JNull (scene_selects <$> scenes)) as (_ & _ & Hgap & Hlast).
  rewrite <- select_payload_fill in Hgap, Hlast.
  split.
  - intros Hnil i. rewrite <- lookup_fmap_join. apply Hgap. rewrite Hnil. simpl. lia.
  - intros Hnone. destruct Hlast as [Hnil | [slot Hslot]]; [exact Hnil|].
    rewrite lookup_fmap_join, Hnone in Hslot. discriminate Hslot.
Qed.

Lemma build_text_output_empty payload :
  build_text_output payload = [91; 10; 93]%N ↔ payload = [].
Proof.
  split; [|intros ->; reflexivity].
  destruct payload as [|slot payload]; [reflexivity|].
  unfold build_text_output. simpl List.map. rewrite str_join_join_tail.
  destruct slot; discriminate.
Qed.

Lemma json_dump_empty user_select : json_dump user_select = u "[]" ↔ user_select = [].
Proof.
  split; [|intros ->; reflexivity].
  destruct user_select as [|v l]; [reflexivity|].
  unfold json_dump. cbn [json_encode]. discriminate.
Qed.

(** X16. For a document with a [scenes] list, the Text artifact is the
    empty one, [[], newline, []], exactly when no scene is a dictionary
    with a [texts] list, and the Select artifact is [[]] exactly when
    no scene is a dictionary with a [selects] key. *)
Theorem empty_artifacts (scenes : list json) :
  (build_text_output (text_payload scenes) = [91; 10; 93]%N
   ↔ ∀ i, scenes !! i ≫= scene_texts = None)
  ∧ (json_dump (select_payload scenes) = u "[]"
     ↔ ∀ i, scenes !! i ≫= scene_selects = None).
Proof.
  split.
  - rewrite build_text_output_empty. apply text_payload_empty.
  - rewrite json_dump_empty. apply select_payload_empty.
Qed.
